(** * tg-email-bot: the list store and the add-mail handler of [bot.py]

    A shallow embedding of [src/bot.py]: the two SQLite tables behind the
    class [DB], the three handlers [register_email], [create_list] and
    [add_mail] as coroutines that are cut at their [await]s, and the
    properties of the newline separated text kept in the [list] column. *)

From Stdlib Require Import String Ascii ZArith List Bool Lia.
Import ListNotations.
Open Scope Z_scope.
#[local] Set Warnings "-register-all".

(** ** Python strings *)

(** A Python [str] is a sequence of Unicode code points. *)
Definition pystr := list Z.

(** Writes an ASCII literal as a [pystr]. *)
Definition str (s : string) : pystr :=
  map (fun a => Z.of_N (N_of_ascii a)) (list_ascii_of_string s).

Definition LF : Z := 10.
Definition CR : Z := 13.

(** The line boundaries of [str.splitlines]: \n, \v, \f, \r, \x1c, \x1d,
    \x1e, \x85, U+2028 and U+2029. *)
Definition is_linebreak (c : Z) : bool :=
  (c =? 10) || (c =? 11) || (c =? 12) || (c =? 13) || (c =? 28) || (c =? 29)
  || (c =? 30) || (c =? 133) || (c =? 8232) || (c =? 8233).

(** [str.__eq__]: equality code point by code point. *)
Fixpoint str_eqb (a b : pystr) : bool :=
  match a, b with
  | [], [] => true
  | x :: a', y :: b' => (x =? y) && str_eqb a' b'
  | _, _ => false
  end.

(** [x in lines] for a list of strings. *)
Definition contains (lines : list pystr) (x : pystr) : bool :=
  existsb (str_eqb x) lines.

(** [str.splitlines()] without [keepends].  [cur] is the line being scanned;
    a boundary closes it, \r\n counts as one boundary, and what is left at
    the end of the string is a line only when it is not empty. *)
Fixpoint splitlines_from (cur s : pystr) : list pystr :=
  match s with
  | [] => match cur with [] => [] | _ => [cur] end
  | c :: s' =>
      if is_linebreak c then
        cur :: (if c =? CR
                then match s' with
                     | d :: s'' => if d =? LF then splitlines_from [] s''
                                   else splitlines_from [] s'
                     | [] => splitlines_from [] s'
                     end
                else splitlines_from [] s')
      else splitlines_from (cur ++ [c]) s'
  end.

Definition splitlines (s : pystr) : list pystr := splitlines_from [] s.

(** [f"{list_}\n{email}"], line 173. *)
Definition append_line (list_ email : pystr) : pystr := list_ ++ LF :: email.

(** The text that [create_list] followed by one [add_mail] per element of
    [emails] leaves in the row: the title, then every email after a \n. *)
Definition stored_text (title : pystr) (emails : list pystr) : pystr :=
  fold_left append_line emails title.

(** The spec's storage form, ["\n".join(entries)]. *)
Fixpoint join_lines (entries : list pystr) : pystr :=
  match entries with
  | [] => []
  | [e] => e
  | e :: rest => e ++ LF :: join_lines rest
  end.

(** No line boundary occurs in the string. *)
Definition unbroken (s : pystr) : bool := forallb (fun c => negb (is_linebreak c)) s.

(** A non-empty string without line boundary: what one line of a text is. *)
Definition single_line (s : pystr) : bool :=
  match s with [] => false | _ => unbroken s end.

(** The string is not empty and its last code point is no line boundary,
    or is \r (which the \n of [append_line] turns into one \r\n). *)
Definition ends_open (s : pystr) : bool :=
  match rev s with
  | [] => false
  | c :: _ => negb (is_linebreak c) || (c =? CR)
  end.

(** ** The database: class [DB]

    A table is the list of its rows in insertion order.  Both tables are
    declared [(id INTEGER PRIMARY KEY, <text column>)]. *)
Definition table := list (Z * pystr).

Record DB := mkDB {
  user : table;    (* user(id, email) *)
  list_ : table    (* list(id, list) *)
}.

(** What [DB.__init__] finds in a new database file. *)
Definition empty_db : DB := mkDB [] [].

(** [SELECT <column> FROM <table> WHERE id=?] then [fetchone()]. *)
Fixpoint select_by_id (id : Z) (rows : table) : option pystr :=
  match rows with
  | [] => None
  | (i, v) :: rows' => if i =? id then Some v else select_by_id id rows'
  end.

(** [INSERT OR REPLACE INTO <table> VALUES (?, ?)]: the rows that clash on the
    primary key are deleted, then the new row is inserted. *)
Definition insert_or_replace (id : Z) (v : pystr) (rows : table) : table :=
  filter (fun r => negb (fst r =? id)) rows ++ [(id, v)].

(** [UPDATE <table> SET <column>=? WHERE id=?]: no row, no change. *)
Definition update_by_id (id : Z) (v : pystr) (rows : table) : table :=
  map (fun r => if fst r =? id then (id, v) else r) rows.

(** The largest rowid of a table, 0 for an empty one (rowids that SQLite
    hands out are positive). *)
Definition max_rowid (rows : table) : Z :=
  fold_right (fun r m => Z.max (fst r) m) 0 rows.

(** The largest rowid of SQLite, 2^63 - 1. *)
Definition rowid_limit : Z := 9223372036854775807.

(** The integers that [sqlite3] binds to a parameter: those of 64 bits.  For
    any other Python int [execute] raises [OverflowError]. *)
Definition sqlite_int (n : Z) : bool :=
  (- 9223372036854775808 <=? n) && (n <=? rowid_limit).

Definition insert_user (user_id : Z) (email : pystr) (db : DB) : DB :=
  mkDB (insert_or_replace user_id email (user db)) (list_ db).

(** [insert_list], lines 53-58.  The column [id] is an alias of the rowid and
    the statement gives none, so the new row gets the largest rowid plus one.
    When the largest rowid is already [rowid_limit] SQLite draws rowids at
    random; that branch is outside this model and is [None]. *)
Definition insert_list (title : pystr) (db : DB) : option (Z * DB) :=
  let id_ := max_rowid (list_ db) + 1 in
  if id_ <=? rowid_limit
  then Some (id_, mkDB (user db) (list_ db ++ [(id_, title)]))
  else None.

(** [update_list], lines 60-63.  With a [list_id] that is no 64-bit integer
    [execute] raises [OverflowError] and nothing is written. *)
Definition update_list (list_id : Z) (new_list : pystr) (db : DB) : DB :=
  if sqlite_int list_id
  then mkDB (user db) (update_by_id list_id new_list (list_ db))
  else db.

(** [get_email]: [None] is Python's [None].  A user id is the one Telegram
    gives, which fits 64 bits. *)
Definition get_email (user_id : Z) (db : DB) : option pystr :=
  select_by_id user_id (user db).

(** [get_list], lines 77-86.  [None] stands for an exception: the
    [OverflowError] of [execute] on line 78 when [list_id] is no 64-bit
    integer, and otherwise the [ValueError] of line 83 when no row has the
    id; [get_list_error] below tells which. *)
Definition get_list (list_id : Z) (db : DB) : option pystr :=
  if sqlite_int list_id then select_by_id list_id (list_ db) else None.

(** The entries of a list as [add_mail] reads them on line 169. *)
Definition entries (list_id : Z) (db : DB) : option (list pystr) :=
  option_map splitlines (get_list list_id db).

(** ** Handlers as coroutines *)

(** The two alerts of [add_mail] and the replies of [register_email]; the
    Persian texts themselves play no part. *)
Inductive notice :=
| RegisterFirst      (* line 162: register an email with the bot first *)
| AlreadyAdded       (* line 170: your email was added before *)
| RegisterUsage      (* line 105 *)
| EmailNotValid      (* line 114 *)
| EmailRegistered.   (* line 123 *)

(** The awaited calls to the Telegram API.  The keyboard of a message is
    determined by the list id ([get_keyboard]); the uuid of the inline
    article is left out. *)
Inductive api_call :=
| ReplyText (text : notice)
| AnswerInlineQuery (list_title : pystr) (list_id : Z)
| AnswerCallback (alert : option notice)
| EditMessageText (text : pystr) (list_id : Z).

Inductive exn :=
| ValueError (list_id : Z)   (* get_list: list with this id not found *)
| OverflowError              (* sqlite3: Python int too large for INTEGER *)
| RowidExhausted.            (* see insert_list *)

(** The exception by which [get_list list_id] ends when it returns no text. *)
Definition get_list_error (list_id : Z) : exn :=
  if sqlite_int list_id then ValueError list_id else OverflowError.

(** A handler runs without interruption up to its next [await].  [Await c k]
    is a handler suspended in the call [c]; [k] is the code that runs, on the
    database of that later moment, once the event loop resumes it. *)
Inductive task :=
| Done
| Failed (e : exn)
| Await (c : api_call) (k : DB -> DB * task).

Definition coroutine := DB -> DB * task.

(** A continuation that awaits one more call and touches nothing. *)
Definition and_then (c : api_call) (t : task) : task :=
  Await c (fun db => (db, t)).

(** [add_mail], lines 156-181.  [list_id] is the number that line 166 reads
    from the callback data, which the handler pattern [^add_mail_\d+$]
    guarantees to be there; the pattern puts no bound on it. *)
Definition add_mail (user_id list_id : Z) : coroutine := fun db =>
  match get_email user_id db with
  | None => (db, and_then (AnswerCallback (Some RegisterFirst)) Done)
  | Some email =>
      match get_list list_id db with
      | None => (db, Failed (get_list_error list_id))
      | Some list_ =>
          if contains (splitlines list_) email
          then (db, and_then (AnswerCallback (Some AlreadyAdded)) Done)
          else
            let new_list := append_line list_ email in
            (update_list list_id new_list db,
             and_then (EditMessageText new_list list_id)
               (and_then (AnswerCallback None) Done))
      end
  end.

(** [create_list], lines 134-153. *)
Definition create_list (list_title : pystr) : coroutine := fun db =>
  match list_title with
  | [] => (db, Done)
  | _ =>
      match insert_list list_title db with
      | None => (db, Failed RowidExhausted)
      | Some (list_id, db') =>
          (db', and_then (AnswerInlineQuery list_title list_id) Done)
      end
  end.

Section Validator.

(** [email_validator.validate_email]: [None] for [EmailNotValidError],
    otherwise the normalised address [validation.email]. *)
Variable validate_email : pystr -> option pystr.

(** [register_email], lines 103-123. *)
Definition register_email (user_id : Z) (args : list pystr) : coroutine := fun db =>
  match args with
  | [arg] =>
      match validate_email arg with
      | None => (db, and_then (ReplyText EmailNotValid) Done)
      | Some email =>
          (insert_user user_id email db, and_then (ReplyText EmailRegistered) Done)
      end
  | _ => (db, and_then (ReplyText RegisterUsage) Done)
  end.

End Validator.

(** ** Running handlers *)

(** A handler in flight: still to run from [k] with the calls [calls] made so
    far, returned, or ended by an exception. *)
Inductive thread :=
| Ready (k : coroutine) (calls : list api_call)
| Finished (calls : list api_call)
| Crashed (e : exn) (calls : list api_call).

Definition settle (calls : list api_call) (t : task) : thread :=
  match t with
  | Done => Finished calls
  | Failed e => Crashed e calls
  | Await c k => Ready k (calls ++ [c])
  end.

(** One turn of the event loop for a thread: the code up to the next await. *)
Definition resume (th : thread) (db : DB) : option (DB * thread) :=
  match th with
  | Ready k calls => let (db', t) := k db in Some (db', settle calls t)
  | _ => None
  end.

(** A handler run to its end with nothing else in between. *)
Fixpoint drain (calls : list api_call) (t : task) (db : DB) : DB * thread :=
  match t with
  | Done => (db, Finished calls)
  | Failed e => (db, Crashed e calls)
  | Await c k => let (db', t') := k db in drain (calls ++ [c]) t' db'
  end.

Definition run (h : coroutine) (db : DB) : DB * thread :=
  let (db', t) := h db in drain [] t db'.

(** Two handlers in flight on one event loop.  A turn resumes either of them
    for the code up to its next await; nothing else orders the turns. *)
Definition config := (DB * thread * thread)%type.

Inductive turn : config -> config -> Prop :=
| turn_left db a b db' a' :
    resume a db = Some (db', a') -> turn (db, a, b) (db', a', b)
| turn_right db a b db' b' :
    resume b db = Some (db', b') -> turn (db, a, b) (db', a, b').

Inductive turns : config -> config -> Prop :=
| turns_nil c : turns c c
| turns_cons c1 c2 c3 : turn c1 c2 -> turns c2 c3 -> turns c1 c3.

Definition over (th : thread) : bool :=
  match th with Ready _ _ => false | _ => true end.

(** After its first await the handler only awaits: each continuation hands
    back the database it was given, whatever that is. *)
Inductive quiet : task -> Prop :=
| quiet_Done : quiet Done
| quiet_Failed e : quiet (Failed e)
| quiet_Await c k t : (forall db, k db = (db, t)) -> quiet t -> quiet (Await c k).

(** ** Events *)

Inductive event :=
| Register (user_id : Z) (args : list pystr)
| CreateList (list_title : pystr)
| AddMail (user_id list_id : Z).

Definition handler (validate_email : pystr -> option pystr) (ev : event) : coroutine :=
  match ev with
  | Register user_id args => register_email validate_email user_id args
  | CreateList list_title => create_list list_title
  | AddMail user_id list_id => add_mail user_id list_id
  end.

(** The database after the events of [evs], handled one after the other. *)
Definition replay (validate_email : pystr -> option pystr) (evs : list event) (db : DB) : DB :=
  fold_left (fun d ev => fst (run (handler validate_email ev) d)) evs db.

(** The title of a created list has no line boundary in it. *)
Definition plain_title (ev : event) : bool :=
  match ev with
  | CreateList list_title => unbroken list_title
  | _ => true
  end.

(** A stand-in for the validator in examples: it accepts, unchanged, the
    single-line strings that hold an at sign. *)
Definition accept_at (s : pystr) : option pystr :=
  if single_line s && existsb (Z.eqb 64) s then Some s else None.

(** Two add-mail presses on the list with text [text] went through, the one
    of [first] before the one of [second]. *)
Definition appended_in_order (text first second : pystr) (list_id : Z)
    (db' : DB) (th_first th_second : thread) : Prop :=
  th_first = Finished [EditMessageText (append_line text first) list_id;
                       AnswerCallback None]
  /\ th_second =
       Finished [EditMessageText (append_line (append_line text first) second)
                   list_id;
                 AnswerCallback None]
  /\ get_list list_id db' = Some (append_line (append_line text first) second)
  /\ entries list_id db' = Some (splitlines text ++ [first; second]).

(** ** Sample data *)

Definition alice : pystr := str "a@x.com".
Definition bob : pystr := str "b@y.com".

(** User 1 registered, one list titled groceries. *)
Definition db_groceries : DB :=
  replay accept_at [Register 1 [alice]; CreateList (str "groceries")] empty_db.

(** User 1 registered, one list whose title ends in \n. *)
Definition db_trailing : DB :=
  replay accept_at [Register 1 [alice]; CreateList (str "t" ++ [LF])] empty_db.

(** Users 1 and 2 registered, one list with the given title. *)
Definition db_two_users (title : pystr) : DB :=
  replay accept_at [Register 1 [alice]; Register 2 [bob]; CreateList title] empty_db.

(** ** Auxiliary notions of the proofs *)

(** The line that the scanner still holds when [s] is used up. *)
Definition pending (cur s : pystr) : bool :=
  match s with
  | [] => match cur with [] => false | _ => true end
  | _ => ends_open s
  end.

(** The last entry of the sequence, when there is one, is not empty. *)
Definition last_filled (entries : list pystr) : bool :=
  match rev entries with
  | [] :: _ => false
  | _ => true
  end.

(** How many of [lines] are equal to [x]. *)
Definition occurrences (x : pystr) (lines : list pystr) : nat :=
  List.length (filter (str_eqb x) lines).

(** The rows of a table that carry the key [id]. *)
Definition rows_of (id : Z) (rows : table) : table :=
  filter (fun r => fst r =? id) rows.

(** A text that is the joined form of distinct single lines. *)
Definition tidy_text (text : pystr) : Prop :=
  exists lines, lines <> [] /\ forallb single_line lines = true
                /\ NoDup lines /\ text = join_lines lines.

(** Every registered email is a single line and every list text is tidy. *)
Definition tidy_db (db : DB) : Prop :=
  (forall user_id email, In (user_id, email) (user db) -> single_line email = true)
  /\ (forall list_id text, In (list_id, text) (list_ db) -> tidy_text text).

(** [ends_as th f]: the thread [th] only awaits from here on, never touches
    the database, and ends as [f]. *)
Inductive ends_as : thread -> thread -> Prop :=
| ends_Finished calls : ends_as (Finished calls) (Finished calls)
| ends_Crashed e calls : ends_as (Crashed e calls) (Crashed e calls)
| ends_Ready k calls t f :
    (forall db, k db = (db, t)) -> ends_as (settle calls t) f ->
    ends_as (Ready k calls) f.

(** Where two handlers can be: none started, one started, both started in
    either order.  The database is the one of the handlers started so far,
    run one after the other in the order of their first turns. *)
Definition serial_inv (h1 h2 : coroutine) (db0 : DB) (c : config) : Prop :=
  let '(db, a, b) := c in
  (db = db0 /\ a = Ready h1 [] /\ b = Ready h2 [])
  \/ (db = fst (run h1 db0) /\ ends_as a (snd (run h1 db0)) /\ b = Ready h2 [])
  \/ (db = fst (run h2 db0) /\ a = Ready h1 [] /\ ends_as b (snd (run h2 db0)))
  \/ (db = fst (run h2 (fst (run h1 db0)))
      /\ ends_as a (snd (run h1 db0))
      /\ ends_as b (snd (run h2 (fst (run h1 db0)))))
  \/ (db = fst (run h1 (fst (run h2 db0)))
      /\ ends_as a (snd (run h1 (fst (run h2 db0))))
      /\ ends_as b (snd (run h2 db0))).

(** ** The button of a list: [get_keyboard] and line 166 *)

(** The decimal digits of a number [n >= 0], at most [fuel] of them. *)
Fixpoint digits (fuel : nat) (n : Z) : pystr :=
  match fuel with
  | O => []
  | S fuel' =>
      (if n <? 10 then [] else digits fuel' (n / 10)) ++ [48 + n mod 10]
  end.

(** [str(n)] as the f-string of line 129 formats an int: a minus sign for a
    negative number, then the decimal digits without leading zero.  A number
    below 2^(k+1) has at most k+1 decimal digits. *)
Definition py_str_int (n : Z) : pystr :=
  if n <? 0
  then 45 :: digits (S (Z.to_nat (Z.log2 (- n)))) (- n)
  else digits (S (Z.to_nat (Z.log2 n))) n.

(** [callback_data] of the button that [get_keyboard list_id] builds. *)
Definition callback_data (list_id : Z) : pystr :=
  str "add_mail_" ++ py_str_int list_id.

(** [s.removeprefix(prefix)]. *)
Fixpoint strip_prefix (prefix s : pystr) : option pystr :=
  match prefix, s with
  | [], _ => Some s
  | p :: prefix', c :: s' => if p =? c then strip_prefix prefix' s' else None
  | _ :: _, [] => None
  end.

Definition removeprefix (prefix s : pystr) : pystr :=
  match strip_prefix prefix s with
  | Some rest => rest
  | None => s
  end.

Definition is_ascii_digit (c : Z) : bool := (48 <=? c) && (c <=? 57).

(** [int(s)] for a non-empty string of the digits 0 to 9.  For every other
    string the result here is [None]: there [int] raises [ValueError] or
    accepts a form that no button of the bot has (sign, blanks, underscores,
    digits of other scripts), and the model does not tell these apart. *)
Definition int_of_digits (s : pystr) : option Z :=
  match s with
  | [] => None
  | _ =>
      fold_left
        (fun acc c =>
           match acc with
           | Some a => if is_ascii_digit c then Some (10 * a + (c - 48)) else None
           | None => None
           end)
        s (Some 0)
  end.

(** Line 166: [int(query.data.removeprefix("add_mail_"))]. *)
Definition list_id_of_data (data : pystr) : option Z :=
  int_of_digits (removeprefix (str "add_mail_") data).

(** What [add_mail] writes into the row of the list, if it writes. *)
Definition add_mail_write (user_id list_id : Z) (db : DB) : option pystr :=
  match get_email user_id db, get_list list_id db with
  | Some email, Some text =>
      if contains (splitlines text) email then None
      else Some (append_line text email)
  | _, _ => None
  end.

(** What the events [evs] can have written.  Every row of the [user] table
    holds an address that the validator returned for the argument of a
    register event of that user.  The text of every list is the non-empty
    title of a create-list event followed, each after a \n, by addresses
    that the validator returned to a user who registered and who pressed
    the button of that list. *)
Definition built_db (validate_email : pystr -> option pystr)
    (evs : list event) (db : DB) : Prop :=
  (forall user_id email, In (user_id, email) (user db) ->
     exists arg,
       In (Register user_id [arg]) evs /\ validate_email arg = Some email)
  /\ (forall list_id text, In (list_id, text) (list_ db) ->
        exists title emails,
          In (CreateList title) evs /\ title <> []
          /\ text = stored_text title emails
          /\ forall email, In email emails ->
               exists user_id arg,
                 In (Register user_id [arg]) evs
                 /\ In (AddMail user_id list_id) evs
                 /\ validate_email arg = Some email).

(** Users 1 and 2 registered, the lists 1 (groceries) and 2 (tea). *)
Definition db_two_lists : DB :=
  replay accept_at [Register 1 [alice]; Register 2 [bob];
                    CreateList (str "groceries"); CreateList (str "tea")] empty_db.

(** User 1 registered, one list whose title is the address of user 1 on
    two lines. *)
Definition db_repeated : DB :=
  replay accept_at [Register 1 [alice]; CreateList (join_lines [alice; alice])]
    empty_db.

(** * Properties *)

(** ** Strings *)

Lemma str_eqb_eq (a b : pystr) : str_eqb a b = true <-> a = b.
Proof.
  revert b; induction a as [|x a IH]; intros [|y b]; simpl; split;
    try congruence; try reflexivity.
  - intros H. apply andb_true_iff in H as [Hx Hr].
    apply Z.eqb_eq in Hx. apply IH in Hr. congruence.
  - intros H. injection H as -> ->. rewrite Z.eqb_refl. simpl. now apply IH.
Qed.

Lemma contains_In (lines : list pystr) (x : pystr) :
  contains lines x = true <-> In x lines.
Proof.
  unfold contains. rewrite existsb_exists. split.
  - intros (y & Hin & Heq). apply str_eqb_eq in Heq. now subst.
  - intros Hin. exists x. split; [assumption | now apply str_eqb_eq].
Qed.

Lemma contains_not_In (lines : list pystr) (x : pystr) :
  contains lines x = false <-> ~ In x lines.
Proof.
  rewrite <- contains_In. destruct (contains lines x); split; congruence.
Qed.

(** The equations of the scanner, one per kind of code point. *)

Lemma splitlines_from_plain cur c s :
  is_linebreak c = false ->
  splitlines_from cur (c :: s) = splitlines_from (cur ++ [c]) s.
Proof. intros H. simpl. now rewrite H. Qed.

Lemma splitlines_from_break cur c s :
  is_linebreak c = true -> (c =? CR) = false ->
  splitlines_from cur (c :: s) = cur :: splitlines_from [] s.
Proof. intros H1 H2. simpl. now rewrite H1, H2. Qed.

Lemma splitlines_from_CR_LF cur s :
  splitlines_from cur (CR :: LF :: s) = cur :: splitlines_from [] s.
Proof. reflexivity. Qed.

Lemma splitlines_from_CR_other cur d s :
  (d =? LF) = false ->
  splitlines_from cur (CR :: d :: s) = cur :: splitlines_from [] (d :: s).
Proof.
  intros H. change (splitlines_from cur (CR :: d :: s))
    with (cur :: (if d =? LF then splitlines_from [] s
                  else splitlines_from [] (d :: s))).
  now rewrite H.
Qed.

Lemma splitlines_from_LF cur s :
  splitlines_from cur (LF :: s) = cur :: splitlines_from [] s.
Proof. reflexivity. Qed.

(** A string without line boundary is one line, or none when it is empty. *)
Lemma splitlines_from_unbroken l : forall cur,
  unbroken l = true ->
  splitlines_from cur l = match cur ++ l with [] => [] | _ => [cur ++ l] end.
Proof.
  induction l as [|c l IH]; intros cur H.
  - rewrite app_nil_r. reflexivity.
  - simpl in H. apply andb_true_iff in H as [Hc Hl].
    apply negb_true_iff in Hc.
    rewrite splitlines_from_plain by assumption.
    rewrite IH by assumption. now rewrite <- app_assoc.
Qed.

Lemma splitlines_single_line l :
  single_line l = true -> splitlines l = [l].
Proof.
  intros H. unfold splitlines. destruct l as [|c l]; [discriminate|].
  now rewrite splitlines_from_unbroken.
Qed.

(** A line and its \n, then the rest. *)
Lemma splitlines_from_line_LF l : forall cur rest,
  unbroken l = true ->
  splitlines_from cur (l ++ LF :: rest) = (cur ++ l) :: splitlines_from [] rest.
Proof.
  induction l as [|c l IH]; intros cur rest H.
  - rewrite app_nil_r. apply splitlines_from_LF.
  - simpl in H. apply andb_true_iff in H as [Hc Hl].
    apply negb_true_iff in Hc. cbn [app].
    rewrite splitlines_from_plain by assumption.
    rewrite IH by assumption. now rewrite <- app_assoc.
Qed.

Lemma ends_open_cons c d s : ends_open (c :: d :: s) = ends_open (d :: s).
Proof.
  unfold ends_open. simpl rev.
  destruct (rev s) as [|z r]; reflexivity.
Qed.

(** A \n at the end closes the pending line, or adds an empty one. *)
Lemma splitlines_from_snoc_LF_len n : forall s cur,
  (length s <= n)%nat ->
  splitlines_from cur (s ++ [LF]) =
  splitlines_from cur s ++ (if pending cur s then [] else [[]]).
Proof.
  induction n as [|n IH]; intros s cur Hlen.
  - destruct s; [|simpl in Hlen; lia]. destruct cur; reflexivity.
  - destruct s as [|c s]; [destruct cur; reflexivity|].
    simpl in Hlen. cbn [app].
    destruct (is_linebreak c) eqn:Hb.
    + destruct (c =? CR) eqn:Hcr.
      * apply Z.eqb_eq in Hcr; subst c.
        destruct s as [|d s]; [reflexivity|].
        destruct (d =? LF) eqn:Hd.
        -- apply Z.eqb_eq in Hd; subst d. cbn [app].
           rewrite !splitlines_from_CR_LF.
           simpl in Hlen. rewrite IH by lia. simpl.
           destruct s as [|e s]; [reflexivity|].
           unfold pending. now rewrite !ends_open_cons.
        -- cbn [app]. rewrite !splitlines_from_CR_other by assumption.
           change (d :: s ++ [LF]) with ((d :: s) ++ [LF]).
           rewrite IH by (simpl in *; lia). simpl.
           unfold pending. now rewrite ends_open_cons.
      * rewrite !splitlines_from_break by assumption.
        rewrite IH by lia. simpl.
        destruct s as [|d s].
        -- unfold pending, ends_open. simpl. now rewrite Hb, Hcr.
        -- unfold pending. now rewrite ends_open_cons.
    + rewrite !splitlines_from_plain by assumption.
      rewrite IH by lia.
      destruct s as [|d s].
      * unfold pending, ends_open. cbn [rev app]. cbv iota. rewrite Hb.
        destruct cur; reflexivity.
      * unfold pending. now rewrite ends_open_cons.
Qed.

Lemma splitlines_snoc_LF s :
  splitlines (s ++ [LF]) = splitlines s ++ (if ends_open s then [] else [[]]).
Proof.
  unfold splitlines. rewrite (splitlines_from_snoc_LF_len (length s)) by lia.
  destruct s; reflexivity.
Qed.

(** What follows a \n is scanned on its own. *)
Lemma splitlines_from_app_LF_len n : forall s cur rest,
  (length s <= n)%nat ->
  splitlines_from cur (s ++ LF :: rest) =
  splitlines_from cur (s ++ [LF]) ++ splitlines_from [] rest.
Proof.
  induction n as [|n IH]; intros s cur rest Hlen.
  - destruct s; [reflexivity | simpl in Hlen; lia].
  - destruct s as [|c s]; [reflexivity|].
    simpl in Hlen. cbn [app].
    destruct (is_linebreak c) eqn:Hb.
    + destruct (c =? CR) eqn:Hcr.
      * apply Z.eqb_eq in Hcr; subst c.
        destruct s as [|d s]; [reflexivity|].
        destruct (d =? LF) eqn:Hd.
        -- apply Z.eqb_eq in Hd; subst d. cbn [app].
           rewrite !splitlines_from_CR_LF.
           simpl in Hlen. rewrite (IH s [] rest) by lia. reflexivity.
        -- cbn [app]. rewrite !splitlines_from_CR_other by assumption.
           change (d :: s ++ LF :: rest) with ((d :: s) ++ LF :: rest).
           change (d :: s ++ [LF]) with ((d :: s) ++ [LF]).
           rewrite (IH (d :: s) [] rest) by (simpl in *; lia). reflexivity.
      * rewrite !splitlines_from_break by assumption.
        rewrite (IH s [] rest) by lia. reflexivity.
    + rewrite !splitlines_from_plain by assumption.
      rewrite (IH s (cur ++ [c]) rest) by lia. reflexivity.
Qed.

(** The lines of [append_line list_ email]: those of [list_], an empty line
    when [list_] does not end open, and the email. *)
Lemma splitlines_append_line list_ email :
  single_line email = true ->
  splitlines (append_line list_ email) =
  splitlines list_ ++ (if ends_open list_ then [] else [[]]) ++ [email].
Proof.
  intros He. unfold append_line, splitlines at 1.
  rewrite (splitlines_from_app_LF_len (length list_)) by lia.
  fold (splitlines (list_ ++ [LF])). rewrite splitlines_snoc_LF.
  fold (splitlines email). rewrite (splitlines_single_line email) by assumption.
  now rewrite app_assoc.
Qed.

(** The email comes right after the former lines exactly when the text
    ends open. *)
Lemma splitlines_append_line_iff list_ email :
  single_line email = true ->
  splitlines (append_line list_ email) = splitlines list_ ++ [email]
  <-> ends_open list_ = true.
Proof.
  intros He. rewrite splitlines_append_line by assumption.
  destruct (ends_open list_); split; trivial; intros H.
  - apply (f_equal (@List.length pystr)) in H.
    rewrite !length_app in H. simpl in H. lia.
  - discriminate.
Qed.

Lemma join_lines_cons e e' rest :
  join_lines (e :: e' :: rest) = e ++ LF :: join_lines (e' :: rest).
Proof. reflexivity. Qed.

Lemma join_lines_merge a b rest :
  join_lines (append_line a b :: rest) = join_lines (a :: b :: rest).
Proof.
  unfold append_line. destruct rest as [|c rest].
  - reflexivity.
  - rewrite !join_lines_cons. now rewrite <- app_assoc.
Qed.

(** The text built by successive [append_line]s is the joined sequence. *)
Lemma stored_text_join emails : forall title,
  stored_text title emails = join_lines (title :: emails).
Proof.
  unfold stored_text.
  induction emails as [|e emails IH]; intros title; [reflexivity|].
  simpl fold_left. rewrite IH. apply join_lines_merge.
Qed.

Lemma last_filled_cons e e' rest :
  last_filled (e :: e' :: rest) = last_filled (e' :: rest).
Proof.
  unfold last_filled. simpl rev.
  destruct (rev rest) as [|z r]; [destruct e'; reflexivity|].
  simpl. destruct z; reflexivity.
Qed.

Lemma splitlines_join_lines entries :
  forallb unbroken entries = true -> last_filled entries = true ->
  splitlines (join_lines entries) = entries.
Proof.
  induction entries as [|e entries IH]; intros Hu Hl; [reflexivity|].
  simpl in Hu. apply andb_true_iff in Hu as [He Hu].
  destruct entries as [|e' rest].
  - destruct e as [|c e]; [discriminate|].
    apply splitlines_single_line. exact He.
  - rewrite join_lines_cons. unfold splitlines.
    rewrite splitlines_from_line_LF by assumption.
    rewrite last_filled_cons in Hl.
    fold (splitlines (join_lines (e' :: rest))).
    now rewrite IH.
Qed.

Lemma occurrences_app x l1 l2 :
  occurrences x (l1 ++ l2) = (occurrences x l1 + occurrences x l2)%nat.
Proof. unfold occurrences. now rewrite filter_app, length_app. Qed.

Lemma occurrences_absent x lines :
  contains lines x = false -> occurrences x lines = 0%nat.
Proof.
  unfold contains, occurrences. induction lines as [|l lines IH]; [reflexivity|].
  simpl. destruct (str_eqb x l); [discriminate|]. exact IH.
Qed.

Lemma occurrences_present x lines :
  contains lines x = true -> (1 <= occurrences x lines)%nat.
Proof.
  unfold contains, occurrences. induction lines as [|l lines IH]; [discriminate|].
  simpl. destruct (str_eqb x l); simpl; [lia | exact IH].
Qed.

Lemma str_eqb_refl x : str_eqb x x = true.
Proof. now apply str_eqb_eq. Qed.

Lemma contains_app l1 l2 x :
  contains (l1 ++ l2) x = contains l1 x || contains l2 x.
Proof. unfold contains. apply existsb_app. Qed.

(** ** Tables *)

Lemma select_by_id_app id rows1 rows2 :
  select_by_id id (rows1 ++ rows2) =
  match select_by_id id rows1 with
  | Some v => Some v
  | None => select_by_id id rows2
  end.
Proof.
  induction rows1 as [|[i v] rows1 IH]; [reflexivity|].
  simpl. destruct (i =? id); [reflexivity | exact IH].
Qed.

Lemma select_by_id_filter_same id rows :
  select_by_id id (filter (fun r => negb (fst r =? id)) rows) = None.
Proof.
  induction rows as [|[i v] rows IH]; [reflexivity|].
  simpl. destruct (i =? id) eqn:E; simpl; [exact IH|].
  now rewrite E.
Qed.

Lemma select_by_id_filter_other id id' rows :
  id' <> id ->
  select_by_id id' (filter (fun r => negb (fst r =? id)) rows) =
  select_by_id id' rows.
Proof.
  intros Hne. induction rows as [|[i v] rows IH]; [reflexivity|].
  simpl. destruct (i =? id) eqn:E; simpl.
  - apply Z.eqb_eq in E. subst i.
    destruct (id =? id') eqn:E'; [apply Z.eqb_eq in E'; congruence | exact IH].
  - destruct (i =? id'); [reflexivity | exact IH].
Qed.

Lemma select_insert_or_replace id v rows :
  select_by_id id (insert_or_replace id v rows) = Some v.
Proof.
  unfold insert_or_replace. rewrite select_by_id_app, select_by_id_filter_same.
  simpl. now rewrite Z.eqb_refl.
Qed.

Lemma select_insert_or_replace_other id id' v rows :
  id' <> id ->
  select_by_id id' (insert_or_replace id v rows) = select_by_id id' rows.
Proof.
  intros Hne. unfold insert_or_replace.
  rewrite select_by_id_app, select_by_id_filter_other by assumption.
  destruct (select_by_id id' rows); [reflexivity|].
  simpl. destruct (id =? id') eqn:E; [apply Z.eqb_eq in E; congruence | reflexivity].
Qed.

Lemma rows_of_insert_or_replace id v rows :
  rows_of id (insert_or_replace id v rows) = [(id, v)].
Proof.
  unfold rows_of, insert_or_replace. rewrite filter_app. simpl.
  rewrite Z.eqb_refl.
  replace (filter _ (filter _ rows)) with (@nil (Z * pystr)); [reflexivity|].
  induction rows as [|[i w] rows IH]; [reflexivity|].
  simpl. destruct (i =? id) eqn:E; simpl; [exact IH|].
  now rewrite E.
Qed.

Lemma select_update_by_id id v rows :
  select_by_id id (update_by_id id v rows) =
  match select_by_id id rows with Some _ => Some v | None => None end.
Proof.
  induction rows as [|[i w] rows IH]; [reflexivity|].
  simpl. destruct (i =? id) eqn:E; simpl.
  - now rewrite Z.eqb_refl.
  - now rewrite E.
Qed.

Lemma select_update_by_id_other id id' v rows :
  id' <> id ->
  select_by_id id' (update_by_id id v rows) = select_by_id id' rows.
Proof.
  intros Hne. induction rows as [|[i w] rows IH]; [reflexivity|].
  simpl. destruct (i =? id) eqn:E; simpl.
  - apply Z.eqb_eq in E. subst i.
    destruct (id =? id') eqn:E'; [apply Z.eqb_eq in E'; congruence | exact IH].
  - destruct (i =? id'); [reflexivity | exact IH].
Qed.

Lemma max_rowid_bound rows r : In r rows -> fst r <= max_rowid rows.
Proof.
  induction rows as [|r' rows IH]; [contradiction|].
  intros [->|Hin]; simpl; [lia|]. specialize (IH Hin). lia.
Qed.

Lemma select_by_id_In id v rows :
  select_by_id id rows = Some v -> In (id, v) rows.
Proof.
  induction rows as [|[i w] rows IH]; [discriminate|].
  simpl. destruct (i =? id) eqn:E.
  - apply Z.eqb_eq in E. intros [= ->]. left. congruence.
  - intros H. right. now apply IH.
Qed.

Lemma select_by_id_above id rows :
  max_rowid rows < id -> select_by_id id rows = None.
Proof.
  intros Hlt. destruct (select_by_id id rows) eqn:E; [|reflexivity].
  apply select_by_id_In, max_rowid_bound in E. simpl in E. lia.
Qed.

Lemma max_rowid_app rows1 rows2 :
  max_rowid (rows1 ++ rows2) = Z.max (max_rowid rows1) (max_rowid rows2).
Proof.
  induction rows1 as [|r rows1 IH]; simpl.
  - assert (0 <= max_rowid rows2); [|lia].
    induction rows2; simpl; lia.
  - rewrite IH. lia.
Qed.

(** ** [add_mail] alone: its four ways out *)

Lemma add_mail_unregistered db user_id list_id :
  get_email user_id db = None ->
  run (add_mail user_id list_id) db =
  (db, Finished [AnswerCallback (Some RegisterFirst)]).
Proof. intros H. unfold run, add_mail. now rewrite H. Qed.

Lemma add_mail_missing db user_id list_id email :
  get_email user_id db = Some email -> get_list list_id db = None ->
  run (add_mail user_id list_id) db = (db, Crashed (get_list_error list_id) []).
Proof. intros H1 H2. unfold run, add_mail. now rewrite H1, H2. Qed.

Lemma add_mail_present db user_id list_id email text :
  get_email user_id db = Some email -> get_list list_id db = Some text ->
  contains (splitlines text) email = true ->
  run (add_mail user_id list_id) db =
  (db, Finished [AnswerCallback (Some AlreadyAdded)]).
Proof. intros H1 H2 H3. unfold run, add_mail. now rewrite H1, H2, H3. Qed.

Lemma add_mail_absent db user_id list_id email text :
  get_email user_id db = Some email -> get_list list_id db = Some text ->
  contains (splitlines text) email = false ->
  run (add_mail user_id list_id) db =
  (update_list list_id (append_line text email) db,
   Finished [EditMessageText (append_line text email) list_id;
             AnswerCallback None]).
Proof. intros H1 H2 H3. unfold run, add_mail. now rewrite H1, H2, H3. Qed.

Lemma get_list_update_list list_id text db :
  get_list list_id (update_list list_id text db) =
  match get_list list_id db with Some _ => Some text | None => None end.
Proof.
  unfold get_list, update_list.
  destruct (sqlite_int list_id); [apply select_update_by_id | reflexivity].
Qed.

Lemma get_list_update_list_other list_id list_id' text db :
  list_id' <> list_id ->
  get_list list_id' (update_list list_id text db) = get_list list_id' db.
Proof.
  intros Hne. unfold get_list, update_list.
  destruct (sqlite_int list_id); [|reflexivity].
  destruct (sqlite_int list_id'); [|reflexivity].
  now apply select_update_by_id_other.
Qed.

Lemma user_update_list list_id text db :
  user (update_list list_id text db) = user db.
Proof. unfold update_list. destruct (sqlite_int list_id); reflexivity. Qed.

Lemma get_email_update_list user_id list_id text db :
  get_email user_id (update_list list_id text db) = get_email user_id db.
Proof. unfold get_email. now rewrite user_update_list. Qed.

Lemma list_update_list_ids list_id text db :
  map fst (list_ (update_list list_id text db)) = map fst (list_ db).
Proof.
  unfold update_list. destruct (sqlite_int list_id); [|reflexivity].
  simpl. unfold update_by_id. rewrite map_map. apply map_ext_in.
  intros [i w] _. simpl.
  destruct (i =? list_id) eqn:E; [apply Z.eqb_eq in E; now subst | reflexivity].
Qed.

(** A row of the new table is a row of the old one, or the row of the list
    with its new text; the latter only when the list had a row. *)
Lemma list_update_list_In list_id text db i x :
  In (i, x) (list_ (update_list list_id text db)) ->
  In (i, x) (list_ db) \/ (i = list_id /\ x = text).
Proof.
  unfold update_list. destruct (sqlite_int list_id); [|now left].
  simpl. unfold update_by_id. intros Hin.
  apply in_map_iff in Hin as ([j y] & Heq & Hin). simpl in Heq.
  destruct (j =? list_id).
  - injection Heq as <- <-. now right.
  - injection Heq as <- <-. now left.
Qed.

Lemma get_list_In list_id text db :
  get_list list_id db = Some text -> In (list_id, text) (list_ db).
Proof.
  unfold get_list. destruct (sqlite_int list_id); [|discriminate].
  apply select_by_id_In.
Qed.

Lemma get_list_sqlite_int list_id text db :
  get_list list_id db = Some text -> sqlite_int list_id = true.
Proof. unfold get_list. destruct (sqlite_int list_id); [reflexivity | discriminate]. Qed.

Lemma get_list_select list_id db :
  sqlite_int list_id = true -> get_list list_id db = select_by_id list_id (list_ db).
Proof. intros H. unfold get_list. now rewrite H. Qed.

Lemma rowid_sqlite_int rows :
  max_rowid rows < rowid_limit -> sqlite_int (max_rowid rows + 1) = true.
Proof.
  intros H. unfold sqlite_int. apply andb_true_iff.
  assert (0 <= max_rowid rows) by (clear H; induction rows; simpl; lia).
  split; apply Z.leb_le; unfold rowid_limit in *; lia.
Qed.

Lemma single_line_unbroken s : single_line s = true -> unbroken s = true.
Proof. destruct s; [discriminate | trivial]. Qed.

Lemma contains_after_append text email :
  single_line email = true ->
  contains (splitlines (append_line text email)) email = true.
Proof.
  intros He. rewrite splitlines_append_line by assumption.
  rewrite !contains_app. unfold contains at 3. simpl.
  rewrite str_eqb_refl. now rewrite !orb_true_r.
Qed.

Lemma occurrences_after_append text email :
  single_line email = true ->
  occurrences email (splitlines (append_line text email)) =
  S (occurrences email (splitlines text)).
Proof.
  intros He. rewrite splitlines_append_line by assumption.
  rewrite !occurrences_app.
  assert (Hone : occurrences email [email] = 1%nat).
  { unfold occurrences. simpl. now rewrite str_eqb_refl. }
  rewrite Hone.
  destruct (ends_open text); [simpl; lia|].
  destruct email; [discriminate | simpl; lia].
Qed.

(** ** The claims *)

(** C5. When the user has no registered email, [add_mail] answers the
    callback with the register-first alert and changes nothing: the database,
    and with it the entries of the list, is the one before the call. *)
Theorem add_mail_not_registered db user_id list_id :
  get_email user_id db = None ->
  run (add_mail user_id list_id) db =
    (db, Finished [AnswerCallback (Some RegisterFirst)])
  /\ entries list_id (fst (run (add_mail user_id list_id) db)) = entries list_id db.
Proof.
  intros H. rewrite add_mail_unregistered by assumption. split; reflexivity.
Qed.

(** C6, as the code has it.  For a registered user and a list id for which
    [get_list] returns no text, [add_mail] ends by the exception of
    [get_list] before any call to the API is awaited: the callback is not
    answered, and the database is unchanged.  The exception is the
    [ValueError] of line 83 when the id is a 64-bit integer without a row,
    and the [OverflowError] of [execute] when the id is no 64-bit integer. *)
Theorem add_mail_list_not_found db user_id list_id email :
  get_email user_id db = Some email -> get_list list_id db = None ->
  run (add_mail user_id list_id) db = (db, Crashed (get_list_error list_id) [])
  /\ (sqlite_int list_id = true -> get_list_error list_id = ValueError list_id)
  /\ (sqlite_int list_id = false -> get_list_error list_id = OverflowError).
Proof.
  intros H1 H2. split; [now apply add_mail_missing with (email := email)|].
  unfold get_list_error. split; intros ->; reflexivity.
Qed.

(** C3, as the code has it.  For a registered user whose email is a single
    line, and a list in which that email occurs at most once, two calls of
    [add_mail] in a row leave the email exactly once among the entries; the
    second call answers with the already-added alert and leaves the database
    as the first call left it. *)
Theorem add_mail_twice db user_id list_id email text :
  get_email user_id db = Some email -> single_line email = true ->
  get_list list_id db = Some text ->
  (occurrences email (splitlines text) <= 1)%nat ->
  let db1 := fst (run (add_mail user_id list_id) db) in
  run (add_mail user_id list_id) db1 =
    (db1, Finished [AnswerCallback (Some AlreadyAdded)])
  /\ exists lines, entries list_id db1 = Some lines
                   /\ occurrences email lines = 1%nat.
Proof.
  intros Hu He Hl Hocc db1.
  destruct (contains (splitlines text) email) eqn:Hc.
  - assert (Hdb : db1 = db).
    { unfold db1. now rewrite (add_mail_present _ _ _ _ _ Hu Hl Hc). }
    rewrite Hdb. split.
    + now apply add_mail_present with (email := email) (text := text).
    + exists (splitlines text). unfold entries. rewrite Hl. split; [reflexivity|].
      apply occurrences_present in Hc. lia.
  - assert (Hdb : db1 = update_list list_id (append_line text email) db).
    { unfold db1. now rewrite (add_mail_absent _ _ _ _ _ Hu Hl Hc). }
    assert (Hl1 : get_list list_id db1 = Some (append_line text email)).
    { rewrite Hdb, get_list_update_list. now rewrite Hl. }
    split.
    + apply add_mail_present with (email := email) (text := append_line text email).
      * now rewrite Hdb, get_email_update_list.
      * exact Hl1.
      * now apply contains_after_append.
    + exists (splitlines (append_line text email)). unfold entries.
      rewrite Hl1. split; [reflexivity|].
      rewrite occurrences_after_append by assumption.
      now rewrite occurrences_absent.
Qed.

(** C7, as the code has it.  For a registered user whose email is a single
    line and is not among the lines of the text of an existing list, when
    that text ends open (it is not empty and does not end in a line boundary
    other than \r), [add_mail] stores the text with \n and the email
    appended, edits the message to that text and answers the callback; the
    lines of the stored text are the former lines followed by the email. *)
Theorem add_mail_appends db user_id list_id email text :
  get_email user_id db = Some email -> single_line email = true ->
  get_list list_id db = Some text -> ends_open text = true ->
  contains (splitlines text) email = false ->
  let new_list := append_line text email in
  run (add_mail user_id list_id) db =
    (update_list list_id new_list db,
     Finished [EditMessageText new_list list_id; AnswerCallback None])
  /\ get_list list_id (update_list list_id new_list db) = Some new_list
  /\ splitlines new_list = splitlines text ++ [email].
Proof.
  intros Hu He Hl Ho Hc new_list. split; [|split].
  - now apply add_mail_absent.
  - rewrite get_list_update_list. now rewrite Hl.
  - unfold new_list. rewrite splitlines_append_line by assumption.
    now rewrite Ho.
Qed.

(** C10. Whatever its outcome, [add_mail user_id list_id] leaves the [user]
    table as it was, keeps the ids of the [list] table, keeps the text of
    every other list, and only ever extends the text of its own list, so the
    title at the head of that text stays. *)
Theorem add_mail_frame db user_id list_id :
  let db' := fst (run (add_mail user_id list_id) db) in
  user db' = user db
  /\ map fst (list_ db') = map fst (list_ db)
  /\ (forall list_id', list_id' <> list_id ->
        get_list list_id' db' = get_list list_id' db)
  /\ (forall user_id', get_email user_id' db' = get_email user_id' db)
  /\ (forall text, get_list list_id db = Some text ->
        exists more, get_list list_id db' = Some (text ++ more)).
Proof.
  intros db'.
  assert (Hcases : db' = db \/
    exists email text, get_list list_id db = Some text /\
      db' = update_list list_id (append_line text email) db).
  { unfold db', run, add_mail.
    destruct (get_email user_id db) as [email|]; [|now left].
    destruct (get_list list_id db) as [text|] eqn:Hl; [|now left].
    destruct (contains (splitlines text) email); [now left|].
    right. now exists email, text. }
  destruct Hcases as [-> | (email & text & Hl & ->)].
  - repeat split; trivial. intros text Ht. exists []. now rewrite app_nil_r.
  - split; [apply user_update_list|].
    split; [apply list_update_list_ids|].
    split; [intros list_id' Hne; now apply get_list_update_list_other|].
    split; [intros user_id'; apply get_email_update_list|].
    intros text' Ht. rewrite get_list_update_list, Ht.
    exists (LF :: email). rewrite Hl in Ht. injection Ht as <-. reflexivity.
Qed.

(** C8. [insert_user] twice for one user leaves the second email as the
    one [get_email] returns, exactly one row for that user in the [user]
    table, and the emails of all other users and the [list] table as they
    were; [insert_user] is a total function, it has no way to fail. *)
Theorem register_last_write_wins db user_id email1 email2 :
  let db' := insert_user user_id email2 (insert_user user_id email1 db) in
  get_email user_id db' = Some email2
  /\ rows_of user_id (user db') = [(user_id, email2)]
  /\ (forall user_id', user_id' <> user_id ->
        get_email user_id' db' = get_email user_id' db)
  /\ list_ db' = list_ db.
Proof.
  intros db'. unfold db', get_email, insert_user. simpl. repeat split.
  - apply select_insert_or_replace.
  - apply rows_of_insert_or_replace.
  - intros user_id' Hne.
    now rewrite !select_insert_or_replace_other by assumption.
Qed.

(** C9, as the code has it.  When no entry holds any of the line boundaries
    of [splitlines] and the last entry, if there is one, is not empty, the
    lines of the joined text are the entries, in order; the text that
    [create_list] and the [add_mail]s build from a title and emails is that
    joined text of the title and the emails. *)
Theorem entries_round_trip entries :
  forallb unbroken entries = true -> last_filled entries = true ->
  splitlines (join_lines entries) = entries
  /\ forall title emails, entries = title :: emails ->
       splitlines (stored_text title emails) = entries.
Proof.
  intros Hu Hl. split; [now apply splitlines_join_lines|].
  intros title emails ->. rewrite stored_text_join.
  now apply splitlines_join_lines.
Qed.

Lemma insert_list_next db title :
  max_rowid (list_ db) < rowid_limit ->
  insert_list title db =
  Some (max_rowid (list_ db) + 1,
        mkDB (user db) (list_ db ++ [(max_rowid (list_ db) + 1, title)])).
Proof.
  intros H. unfold insert_list.
  destruct (max_rowid (list_ db) + 1 <=? rowid_limit) eqn:E; [reflexivity|].
  apply Z.leb_gt in E. lia.
Qed.

Lemma create_list_next db title :
  title <> [] -> max_rowid (list_ db) < rowid_limit ->
  run (create_list title) db =
  (mkDB (user db) (list_ db ++ [(max_rowid (list_ db) + 1, title)]),
   Finished [AnswerInlineQuery title (max_rowid (list_ db) + 1)]).
Proof.
  intros Ht Hm. unfold run, create_list.
  destruct title as [|c title]; [congruence|].
  now rewrite insert_list_next.
Qed.

Lemma max_rowid_nonneg rows : 0 <= max_rowid rows.
Proof. induction rows; simpl; lia. Qed.


(** ** The invariant of the stored texts *)

Lemma forallb_single_line_unbroken lines :
  forallb single_line lines = true -> forallb unbroken lines = true.
Proof.
  induction lines as [|l lines IH]; [reflexivity|].
  simpl. intros H. apply andb_true_iff in H as [Hl Hr].
  rewrite single_line_unbroken by assumption. now apply IH.
Qed.

Lemma forallb_single_line_last_filled lines :
  forallb single_line lines = true -> last_filled lines = true.
Proof.
  intros H. unfold last_filled.
  destruct (rev lines) as [|l r] eqn:E; [reflexivity|].
  assert (Hin : In l lines) by (apply in_rev; rewrite E; now left).
  rewrite forallb_forall in H. apply H in Hin.
  destruct l; [discriminate | reflexivity].
Qed.

Lemma tidy_text_lines text lines :
  forallb single_line lines = true -> text = join_lines lines ->
  splitlines text = lines.
Proof.
  intros H ->. apply splitlines_join_lines.
  - now apply forallb_single_line_unbroken.
  - now apply forallb_single_line_last_filled.
Qed.

Lemma join_lines_snoc lines email :
  lines <> [] ->
  join_lines (lines ++ [email]) = append_line (join_lines lines) email.
Proof.
  induction lines as [|l lines IH]; [congruence|]. intros _.
  destruct lines as [|l' lines]; [reflexivity|].
  change ((l :: l' :: lines) ++ [email]) with (l :: (l' :: lines) ++ [email]).
  cbn [app]. rewrite !join_lines_cons.
  change (l' :: lines ++ [email]) with ((l' :: lines) ++ [email]).
  rewrite IH by discriminate. unfold append_line. now rewrite <- app_assoc.
Qed.

Lemma tidy_text_append text email :
  tidy_text text -> single_line email = true ->
  contains (splitlines text) email = false ->
  tidy_text (append_line text email).
Proof.
  intros (lines & Hne & Hs & Hnd & Ht) He Hc.
  rewrite (tidy_text_lines text lines Hs Ht) in Hc.
  apply contains_not_In in Hc.
  exists (lines ++ [email]). repeat split.
  - destruct lines; discriminate.
  - rewrite forallb_app, Hs. simpl. now rewrite He.
  - apply NoDup_app; [assumption | repeat constructor; intros [] | ].
    intros x Hx [<- | []]. contradiction.
  - rewrite join_lines_snoc by assumption. now rewrite Ht.
Qed.

Lemma tidy_db_add_mail db user_id list_id :
  tidy_db db -> tidy_db (fst (run (add_mail user_id list_id) db)).
Proof.
  intros [Hu Hl]. unfold run, add_mail.
  destruct (get_email user_id db) as [email|] eqn:Eu; [|now split].
  destruct (get_list list_id db) as [text|] eqn:El; [|now split].
  destruct (contains (splitlines text) email) eqn:Ec; [now split|].
  simpl. split; [now rewrite user_update_list|].
  intros i x Hin. apply list_update_list_In in Hin as [Hin | [-> ->]].
  - now apply (Hl i).
  - apply tidy_text_append.
    + apply (Hl list_id). now apply get_list_In.
    + apply (Hu user_id). now apply select_by_id_In.
    + exact Ec.
Qed.

Lemma tidy_db_create_list db title :
  unbroken title = true -> tidy_db db ->
  tidy_db (fst (run (create_list title) db)).
Proof.
  intros Ht [Hu Hl]. unfold run, create_list.
  destruct title as [|c title]; [now split|].
  unfold insert_list.
  destruct (max_rowid (list_ db) + 1 <=? rowid_limit); [|now split].
  simpl. split; [exact Hu|].
  intros i x Hin. apply in_app_or in Hin as [Hin | [Heq | []]].
  - now apply (Hl i).
  - injection Heq as <- <-. exists [c :: title]. repeat split.
    + discriminate.
    + simpl. simpl in Ht. now rewrite Ht.
    + repeat constructor. intros [].
Qed.

Lemma tidy_db_register_email validate_email db user_id args :
  (forall arg email, validate_email arg = Some email -> single_line email = true) ->
  tidy_db db ->
  tidy_db (fst (run (register_email validate_email user_id args) db)).
Proof.
  intros Hv [Hu Hl]. unfold run, register_email.
  destruct args as [|arg [|arg' args]]; try now split.
  destruct (validate_email arg) as [email|] eqn:Ev; [|now split].
  simpl. split; [|exact Hl].
  intros i e Hin. simpl in Hin. unfold insert_or_replace in Hin.
  apply in_app_or in Hin as [Hin | [Heq | []]].
  - apply filter_In in Hin as [Hin _]. now apply (Hu i).
  - injection Heq as <- <-. now apply (Hv arg).
Qed.

Lemma tidy_db_replay validate_email evs : forall db,
  (forall arg email, validate_email arg = Some email -> single_line email = true) ->
  forallb plain_title evs = true -> tidy_db db ->
  tidy_db (replay validate_email evs db).
Proof.
  unfold replay.
  induction evs as [|ev evs IH]; intros db Hv Hp Hdb; [exact Hdb|].
  simpl in Hp. apply andb_true_iff in Hp as [Hev Hp].
  simpl fold_left. apply IH; try assumption.
  destruct ev as [user_id args | title | user_id list_id]; simpl handler.
  - now apply tidy_db_register_email.
  - now apply tidy_db_create_list.
  - now apply tidy_db_add_mail.
Qed.

Lemma tidy_db_empty : tidy_db empty_db.
Proof. split; intros ? ? []. Qed.

Lemma accept_at_single_line arg email :
  accept_at arg = Some email -> single_line email = true.
Proof.
  unfold accept_at. destruct (single_line arg) eqn:E; simpl; [|discriminate].
  destruct (existsb (Z.eqb 64) arg); [|discriminate].
  now intros [= <-].
Qed.

(** C4, as the code has it.  When the validator only yields single-line
    addresses and every created list has a title without line boundary, in
    the database reached from the empty one by any sequence of
    registrations, list creations and add-mail presses no string occurs
    twice among the entries of a list (the title line and the emails). *)
Theorem entries_no_duplicates validate_email evs list_id lines :
  (forall arg email, validate_email arg = Some email -> single_line email = true) ->
  forallb plain_title evs = true ->
  entries list_id (replay validate_email evs empty_db) = Some lines ->
  NoDup lines.
Proof.
  intros Hv Hp He.
  destruct (tidy_db_replay validate_email evs empty_db Hv Hp tidy_db_empty)
    as [_ Hl].
  unfold entries in He.
  destruct (get_list list_id (replay validate_email evs empty_db))
    as [text|] eqn:Eg; [|discriminate].
  injection He as <-.
  apply get_list_In, Hl in Eg. destruct Eg as (ls & _ & Hs & Hnd & Ht).
  now rewrite (tidy_text_lines text ls Hs Ht).
Qed.

(** ** Two handlers on one event loop *)

Lemma quiet_drain t :
  quiet t -> forall calls db,
  fst (drain calls t db) = db
  /\ ends_as (settle calls t) (snd (drain calls t db)).
Proof.
  induction 1 as [| e | c k t Hk Hq IH]; intros calls db.
  - split; [reflexivity | constructor].
  - split; [reflexivity | constructor].
  - simpl. rewrite Hk. destruct (IH (calls ++ [c]) db) as [Hdb Hends].
    split; [exact Hdb|].
    apply ends_Ready with (t := t); [exact Hk|].
    exact Hends.
Qed.

Lemma ends_as_resume th f db db' th' :
  ends_as th f -> resume th db = Some (db', th') ->
  db' = db /\ ends_as th' f.
Proof.
  intros H Hr. destruct H as [calls | e calls | k calls t f Hk He];
    try discriminate.
  simpl in Hr. rewrite Hk in Hr. injection Hr as <- <-. now split.
Qed.

Lemma ends_as_over th f : ends_as th f -> over th = true -> th = f.
Proof. intros H Ho. destruct H; [reflexivity | reflexivity | discriminate]. Qed.

Lemma turns_trans c1 c2 c3 : turns c1 c2 -> turns c2 c3 -> turns c1 c3.
Proof.
  induction 1 as [|c1 c2 c2' Ht Hts IH]; [trivial|].
  intros H. apply turns_cons with (c2 := c2); [exact Ht | now apply IH].
Qed.

Lemma ends_as_turns_left th f : ends_as th f -> forall db b,
  turns (db, th, b) (db, f, b).
Proof.
  induction 1 as [calls | e calls | k calls t f Hk He IH]; intros db b;
    try apply turns_nil.
  apply turns_cons with (c2 := (db, settle calls t, b)); [|apply IH].
  apply turn_left. simpl. now rewrite Hk.
Qed.

Lemma ends_as_turns_right th f : ends_as th f -> forall db a,
  turns (db, a, th) (db, a, f).
Proof.
  induction 1 as [calls | e calls | k calls t f Hk He IH]; intros db a;
    try apply turns_nil.
  apply turns_cons with (c2 := (db, a, settle calls t)); [|apply IH].
  apply turn_right. simpl. now rewrite Hk.
Qed.

Section Serial.

Variables h1 h2 : coroutine.
Variable db0 : DB.
Hypothesis quiet1 : forall db, quiet (snd (h1 db)).
Hypothesis quiet2 : forall db, quiet (snd (h2 db)).

Lemma run_quiet h db :
  (forall d, quiet (snd (h d))) ->
  fst (run h db) = fst (h db)
  /\ ends_as (settle [] (snd (h db))) (snd (run h db)).
Proof.
  intros Hq. unfold run. specialize (Hq db).
  destruct (h db) as [db' t]. simpl in *.
  now apply quiet_drain.
Qed.

Lemma resume_first h db db' th :
  (forall d, quiet (snd (h d))) ->
  resume (Ready h []) db = Some (db', th) ->
  db' = fst (run h db) /\ ends_as th (snd (run h db)).
Proof.
  intros Hq Hr. destruct (run_quiet h db Hq) as [Hdb He].
  simpl in Hr. destruct (h db) as [d t]. injection Hr as <- <-.
  simpl in *. now split.
Qed.

Lemma serial_inv_turn c c' :
  serial_inv h1 h2 db0 c -> turn c c' -> serial_inv h1 h2 db0 c'.
Proof.
  intros Hinv Ht. destruct Ht as [db a b db' a' Hr | db a b db' b' Hr];
    unfold serial_inv in *;
    destruct Hinv as [(-> & Ha & Hb) | [(-> & Ha & Hb) | [(-> & Ha & Hb)
                     | [(-> & Ha & Hb) | (-> & Ha & Hb)]]]].
  - subst. apply resume_first in Hr as [-> He]; [|exact quiet1].
    right; left. auto.
  - destruct (ends_as_resume _ _ _ _ _ Ha Hr) as [-> He].
    right; left. auto.
  - subst a. apply resume_first in Hr as [-> He]; [|exact quiet1].
    right; right; right; right. auto.
  - destruct (ends_as_resume _ _ _ _ _ Ha Hr) as [-> He].
    right; right; right; left. auto.
  - destruct (ends_as_resume _ _ _ _ _ Ha Hr) as [-> He].
    right; right; right; right. auto.
  - subst. apply resume_first in Hr as [-> He]; [|exact quiet2].
    right; right; left. auto.
  - subst b. apply resume_first in Hr as [-> He]; [|exact quiet2].
    right; right; right; left. auto.
  - destruct (ends_as_resume _ _ _ _ _ Hb Hr) as [-> He].
    right; right; left. auto.
  - destruct (ends_as_resume _ _ _ _ _ Hb Hr) as [-> He].
    right; right; right; left. auto.
  - destruct (ends_as_resume _ _ _ _ _ Hb Hr) as [-> He].
    right; right; right; right. auto.
Qed.

Lemma serial_inv_turns c c' :
  turns c c' -> serial_inv h1 h2 db0 c -> serial_inv h1 h2 db0 c'.
Proof.
  induction 1 as [|c1 c2 c3 Ht Hts IH]; [trivial|].
  intros Hinv. apply IH. now apply serial_inv_turn with (c := c1).
Qed.

(** Whatever the order of the turns, two handlers that are quiet after their
    first turn end as if one had run to its end before the other began. *)
Lemma interleaving_serial db a b :
  turns (db0, Ready h1 [], Ready h2 []) (db, a, b) ->
  over a = true -> over b = true ->
  (db = fst (run h2 (fst (run h1 db0)))
   /\ a = snd (run h1 db0) /\ b = snd (run h2 (fst (run h1 db0))))
  \/ (db = fst (run h1 (fst (run h2 db0)))
      /\ a = snd (run h1 (fst (run h2 db0))) /\ b = snd (run h2 db0)).
Proof.
  intros Hts Ha Hb.
  apply serial_inv_turns in Hts; [|left; auto].
  destruct Hts as [(_ & -> & _) | [(_ & _ & ->) | [(_ & -> & _)
                  | [(-> & Ea & Eb) | (-> & Ea & Eb)]]]]; try discriminate.
  - left. repeat split; now apply ends_as_over.
  - right. repeat split; now apply ends_as_over.
Qed.

(** The first handler to its end, then the second, is one of the orders. *)
Lemma serial_turns :
  turns (db0, Ready h1 [], Ready h2 [])
        (fst (run h2 (fst (run h1 db0))), snd (run h1 db0),
         snd (run h2 (fst (run h1 db0)))).
Proof.
  destruct (run_quiet h1 db0 quiet1) as [Hdb1 He1].
  destruct (run_quiet h2 (fst (run h1 db0)) quiet2) as [Hdb2 He2].
  apply turns_cons with (c2 := (fst (run h1 db0), settle [] (snd (h1 db0)), Ready h2 [])).
  { apply turn_left. simpl. rewrite Hdb1. now destruct (h1 db0). }
  apply turns_trans with (c2 := (fst (run h1 db0), snd (run h1 db0), Ready h2 [])).
  { now apply ends_as_turns_left. }
  apply turns_cons with
    (c2 := (fst (run h2 (fst (run h1 db0))), snd (run h1 db0),
            settle [] (snd (h2 (fst (run h1 db0)))))).
  { apply turn_right. simpl. rewrite Hdb2. now destruct (h2 (fst (run h1 db0))). }
  now apply ends_as_turns_right.
Qed.

End Serial.

(** The read of the list, the test and the write of [add_mail] all come
    before its first await; after it the handler only awaits. *)
Lemma add_mail_quiet user_id list_id db :
  quiet (snd (add_mail user_id list_id db)).
Proof.
  unfold add_mail, and_then.
  destruct (get_email user_id db) as [email|].
  - destruct (get_list list_id db) as [text|]; [|constructor].
    destruct (contains (splitlines text) email); simpl.
    + eapply quiet_Await; [reflexivity | constructor].
    + eapply quiet_Await; [reflexivity|].
      eapply quiet_Await; [reflexivity | constructor].
  - eapply quiet_Await; [reflexivity | constructor].
Qed.

Lemma ends_open_append_line text email :
  single_line email = true -> ends_open (append_line text email) = true.
Proof.
  intros He. unfold ends_open, append_line. rewrite rev_app_distr.
  cbn [rev]. destruct (rev email) as [|c r] eqn:E.
  - apply (f_equal (@rev Z)) in E. rewrite rev_involutive in E.
    subst email. discriminate.
  - cbn [app].
    assert (Hin : In c email) by (apply in_rev; rewrite E; now left).
    apply single_line_unbroken in He. unfold unbroken in He.
    rewrite forallb_forall in He. rewrite (He c Hin). reflexivity.
Qed.

Lemma str_eqb_neq a b : a <> b -> str_eqb a b = false.
Proof.
  intros H. destruct (str_eqb a b) eqn:E; [|reflexivity].
  apply str_eqb_eq in E. contradiction.
Qed.

(** Two add-mail presses, one wholly after the other. *)
Lemma add_mail_in_order db user1 user2 list_id first second text :
  get_email user1 db = Some first -> get_email user2 db = Some second ->
  single_line first = true -> single_line second = true -> first <> second ->
  get_list list_id db = Some text -> ends_open text = true ->
  contains (splitlines text) first = false ->
  contains (splitlines text) second = false ->
  appended_in_order text first second list_id
    (fst (run (add_mail user2 list_id) (fst (run (add_mail user1 list_id) db))))
    (snd (run (add_mail user1 list_id) db))
    (snd (run (add_mail user2 list_id) (fst (run (add_mail user1 list_id) db)))).
Proof.
  intros Hu1 Hu2 Hs1 Hs2 Hne Hl Ho Hc1 Hc2.
  rewrite (add_mail_absent _ _ _ _ _ Hu1 Hl Hc1). cbn [fst snd].
  set (text1 := append_line text first).
  set (db1 := update_list list_id text1 db).
  assert (Hl1 : get_list list_id db1 = Some text1).
  { unfold db1. rewrite get_list_update_list. now rewrite Hl. }
  assert (Hlines1 : splitlines text1 = splitlines text ++ [first]).
  { unfold text1. rewrite splitlines_append_line by assumption. now rewrite Ho. }
  assert (Hc2' : contains (splitlines text1) second = false).
  { rewrite Hlines1, contains_app, Hc2. unfold contains. simpl.
    rewrite str_eqb_neq by congruence. reflexivity. }
  assert (Hu2' : get_email user2 db1 = Some second)
    by (unfold db1; now rewrite get_email_update_list).
  rewrite (add_mail_absent _ _ _ _ _ Hu2' Hl1 Hc2'). cbn [fst snd].
  unfold appended_in_order. repeat split.
  - rewrite get_list_update_list. now rewrite Hl1.
  - unfold entries. rewrite get_list_update_list, Hl1. simpl. f_equal.
    rewrite splitlines_append_line by assumption.
    replace (ends_open text1) with true
      by (symmetry; now apply ends_open_append_line).
    rewrite Hlines1. now rewrite <- app_assoc.
Qed.

(** C1, as the code has it.  [add_mail] takes no lock, yet it reads the
    list, tests and writes before its first await.  For an existing list
    whose text ends open (a new list with a single-line title is one) and
    two registered single-line emails, distinct and neither among the lines
    of that text, two add-mail handlers in flight together can be run to
    their ends, and whatever the order of their turns both edit the message
    and the lines of the list become the former lines followed by the two
    emails in the order of the first turns: each email once, two lines more
    than before. *)
Theorem concurrent_add_mail db user1 user2 list_id email1 email2 text :
  get_email user1 db = Some email1 -> get_email user2 db = Some email2 ->
  single_line email1 = true -> single_line email2 = true -> email1 <> email2 ->
  get_list list_id db = Some text -> ends_open text = true ->
  contains (splitlines text) email1 = false ->
  contains (splitlines text) email2 = false ->
  let start := (db, Ready (add_mail user1 list_id) [],
                    Ready (add_mail user2 list_id) []) in
  (exists db' a b, turns start (db', a, b) /\ over a = true /\ over b = true)
  /\ forall db' a b,
       turns start (db', a, b) -> over a = true -> over b = true ->
       (appended_in_order text email1 email2 list_id db' a b
        \/ appended_in_order text email2 email1 list_id db' b a)
       /\ exists lines,
            entries list_id db' = Some lines
            /\ occurrences email1 lines = 1%nat
            /\ occurrences email2 lines = 1%nat
            /\ List.length lines = (List.length (splitlines text) + 2)%nat.
Proof.
  intros Hu1 Hu2 Hs1 Hs2 Hne Hl Ho Hc1 Hc2 start.
  pose proof (add_mail_in_order db user1 user2 list_id email1 email2 text
                Hu1 Hu2 Hs1 Hs2 Hne Hl Ho Hc1 Hc2) as H12.
  pose proof (add_mail_in_order db user2 user1 list_id email2 email1 text
                Hu2 Hu1 Hs2 Hs1 (not_eq_sym Hne) Hl Ho Hc2 Hc1) as H21.
  assert (Hocc : forall x y, x <> y ->
            contains (splitlines text) x = false ->
            contains (splitlines text) y = false ->
            occurrences x (splitlines text ++ [x; y]) = 1%nat
            /\ occurrences y (splitlines text ++ [x; y]) = 1%nat).
  { intros x y Hxy Hx Hy. rewrite !occurrences_app.
    rewrite (occurrences_absent x _ Hx), (occurrences_absent y _ Hy).
    unfold occurrences. simpl.
    rewrite !str_eqb_refl, (str_eqb_neq x y), (str_eqb_neq y x) by congruence.
    split; reflexivity. }
  split.
  - eexists _, _, _. split.
    + apply serial_turns; intros; apply add_mail_quiet.
    + destruct H12 as (-> & -> & _). split; reflexivity.
  - intros db' a b Hts Ha Hb.
    apply interleaving_serial in Hts; try assumption;
      try (intros; apply add_mail_quiet).
    destruct Hts as [(-> & -> & ->) | (-> & -> & ->)].
    + split; [left; exact H12|].
      destruct H12 as (_ & _ & _ & He). exists (splitlines text ++ [email1; email2]).
      split; [exact He|].
      destruct (Hocc email1 email2 Hne Hc1 Hc2) as [O1 O2].
      repeat split; try assumption. rewrite length_app. reflexivity.
    + split; [right; exact H21|].
      destruct H21 as (_ & _ & _ & He). exists (splitlines text ++ [email2; email1]).
      split; [exact He|].
      destruct (Hocc email2 email1 (not_eq_sym Hne) Hc2 Hc1) as [O2 O1].
      repeat split; try assumption. rewrite length_app. reflexivity.
Qed.

(** ** The claims at concrete inputs *)

(** C5 at the user 2 of [db_groceries], who never registered. *)
Lemma add_mail_not_registered_witness :
  get_email 2 db_groceries = None
  /\ run (add_mail 2 1) db_groceries =
       (db_groceries, Finished [AnswerCallback (Some RegisterFirst)])
  /\ entries 1 (fst (run (add_mail 2 1) db_groceries)) = entries 1 db_groceries.
Proof.
  split; [reflexivity|].
  apply (add_mail_not_registered db_groceries 2 1). reflexivity.
Defined.

(** C6: the claim as stated fails.  For the registered user 1 and the list
    id 999999, which has no row, [add_mail] does not return with an answer
    to the callback: it ends by the [ValueError] of [get_list]. *)
Lemma add_mail_list_not_found_counterexample :
  get_email 1 db_groceries = Some alice
  /\ get_list 999999 db_groceries = None
  /\ snd (run (add_mail 1 999999) db_groceries) = Crashed (ValueError 999999) []
  /\ forall calls, snd (run (add_mail 1 999999) db_groceries) <> Finished calls.
Proof. repeat split. intros calls H. discriminate H. Qed.

Lemma add_mail_list_not_found_witness :
  run (add_mail 1 999999) db_groceries =
    (db_groceries, Crashed (get_list_error 999999) [])
  /\ (sqlite_int 999999 = true -> get_list_error 999999 = ValueError 999999)
  /\ (sqlite_int 999999 = false -> get_list_error 999999 = OverflowError).
Proof.
  apply (add_mail_list_not_found db_groceries 1 999999 alice); reflexivity.
Defined.

(** With the id 2^63 the press of the registered user 1 ends by the
    [OverflowError] of the query. *)
Lemma add_mail_list_id_too_large :
  run (add_mail 1 9223372036854775808) db_groceries =
  (db_groceries, Crashed OverflowError []).
Proof. reflexivity. Qed.

(** C3 at [db_groceries]: user 1 presses twice on list 1. *)
Lemma add_mail_twice_witness :
  let db1 := fst (run (add_mail 1 1) db_groceries) in
  run (add_mail 1 1) db1 = (db1, Finished [AnswerCallback (Some AlreadyAdded)])
  /\ exists lines, entries 1 db1 = Some lines /\ occurrences alice lines = 1%nat.
Proof.
  apply (add_mail_twice db_groceries 1 1 alice (str "groceries"));
    try reflexivity.
  vm_compute. lia.
Defined.

(** C3: the claim as stated fails.  The list 1 of [db_repeated] has the
    address of user 1 twice in its title.  Both presses of user 1 are
    answered with the already-added alert, and the address is twice among
    the entries afterwards, not once. *)
Lemma add_mail_twice_counterexample :
  get_email 1 db_repeated = Some alice
  /\ get_list 1 db_repeated = Some (join_lines [alice; alice])
  /\ (let db1 := fst (run (add_mail 1 1) db_repeated) in
      run (add_mail 1 1) db1 = (db1, Finished [AnswerCallback (Some AlreadyAdded)])
      /\ entries 1 (fst (run (add_mail 1 1) db1)) = Some [alice; alice]
      /\ occurrences alice [alice; alice] = 2%nat).
Proof. repeat split. Qed.

(** C7: the claim as stated fails.  The list 1 of [db_trailing] has the
    title t\n.  Its entries are [t]; the email of user 1 is not
    among them, and after [add_mail] the entries are [t], an empty line
    and the email, not [t] followed by the email. *)
Lemma add_mail_appends_counterexample :
  get_email 1 db_trailing = Some alice
  /\ entries 1 db_trailing = Some [str "t"]
  /\ contains [str "t"] alice = false
  /\ entries 1 (fst (run (add_mail 1 1) db_trailing)) = Some [str "t"; []; alice]
  /\ entries 1 (fst (run (add_mail 1 1) db_trailing)) <> Some ([str "t"] ++ [alice]).
Proof. repeat split. intros H. discriminate H. Qed.

Lemma add_mail_appends_witness :
  let new_list := append_line (str "groceries") alice in
  run (add_mail 1 1) db_groceries =
    (update_list 1 new_list db_groceries,
     Finished [EditMessageText new_list 1; AnswerCallback None])
  /\ get_list 1 (update_list 1 new_list db_groceries) = Some new_list
  /\ splitlines new_list = splitlines (str "groceries") ++ [alice].
Proof.
  apply (add_mail_appends db_groceries 1 1 alice (str "groceries")); reflexivity.
Defined.

(** C9: the claim as stated fails.  Neither entry holds a line boundary, yet
    the empty last entry is lost: the joined text is the address and \n,
    which has one line.  And an entry with a \r in it, which is no \n, comes
    back as two entries. *)
Lemma entries_round_trip_counterexample :
  (forallb unbroken [alice; []] = true
   /\ splitlines (join_lines [alice; []]) = [alice]
   /\ splitlines (join_lines [alice; []]) <> [alice; []])
  /\ (existsb (Z.eqb LF) (str "a" ++ CR :: str "b") = false
      /\ splitlines (join_lines [str "a" ++ CR :: str "b"]) = [str "a"; str "b"]).
Proof. repeat split. intros H. discriminate H. Qed.

Lemma entries_round_trip_witness :
  splitlines (join_lines [alice; bob]) = [alice; bob]
  /\ forall title emails, [alice; bob] = title :: emails ->
       splitlines (stored_text title emails) = [alice; bob].
Proof. apply (entries_round_trip [alice; bob]); reflexivity. Defined.



(** C4: the claim as stated fails.  One [create_list] with the three-line
    title t\nx\nx gives a list with the line x twice among its entries. *)
Lemma entries_no_duplicates_counterexample :
  entries 1 (replay accept_at [CreateList (join_lines [str "t"; str "x"; str "x"])]
               empty_db)
    = Some [str "t"; str "x"; str "x"]
  /\ ~ NoDup [str "t"; str "x"; str "x"].
Proof.
  split; [reflexivity|]. intros H.
  apply NoDup_cons_iff in H as [_ H]. apply NoDup_cons_iff in H as [H _].
  apply H. now left.
Qed.

Lemma entries_no_duplicates_witness :
  NoDup [str "groceries"; alice; bob].
Proof.
  apply (entries_no_duplicates accept_at
           [Register 1 [alice]; CreateList (str "groceries"); AddMail 1 1;
            Register 2 [bob]; AddMail 1 1; AddMail 2 1] 1).
  - exact accept_at_single_line.
  - reflexivity.
  - reflexivity.
Defined.

(** C1: the claim as stated fails.  On a new list whose title is the
    address of user 1, whatever the order of the turns the press of user 1
    is answered with the already-added alert and does not succeed; and on a
    new list titled groceries the two presses leave three entries, the
    title line and the two addresses. *)
Lemma concurrent_add_mail_counterexample :
  (exists db' a b,
     turns (db_two_users alice, Ready (add_mail 1 1) [], Ready (add_mail 2 1) [])
           (db', a, b)
     /\ over a = true /\ over b = true)
  /\ (forall db' a b,
        turns (db_two_users alice, Ready (add_mail 1 1) [], Ready (add_mail 2 1) [])
              (db', a, b) ->
        over a = true -> over b = true ->
        a = Finished [AnswerCallback (Some AlreadyAdded)])
  /\ (forall db' a b,
        turns (db_two_users (str "groceries"),
               Ready (add_mail 1 1) [], Ready (add_mail 2 1) [])
              (db', a, b) ->
        over a = true -> over b = true ->
        exists lines, entries 1 db' = Some lines /\ List.length lines = 3%nat).
Proof.
  split; [|split].
  - eexists _, _, _. split.
    + apply serial_turns; intros; apply add_mail_quiet.
    + split; reflexivity.
  - intros db' a b Hts Ha Hb.
    apply interleaving_serial in Hts; try assumption;
      try (intros; apply add_mail_quiet).
    destruct Hts as [(_ & -> & _) | (_ & -> & _)]; reflexivity.
  - intros db' a b Hts Ha Hb.
    apply interleaving_serial in Hts; try assumption;
      try (intros; apply add_mail_quiet).
    destruct Hts as [(-> & _ & _) | (-> & _ & _)];
      eexists; split; reflexivity.
Qed.

Lemma concurrent_add_mail_witness :
  let start := (db_two_users (str "groceries"),
                Ready (add_mail 1 1) [], Ready (add_mail 2 1) []) in
  (exists db' a b, turns start (db', a, b) /\ over a = true /\ over b = true)
  /\ forall db' a b,
       turns start (db', a, b) -> over a = true -> over b = true ->
       (appended_in_order (str "groceries") alice bob 1 db' a b
        \/ appended_in_order (str "groceries") bob alice 1 db' b a)
       /\ exists lines,
            entries 1 db' = Some lines
            /\ occurrences alice lines = 1%nat
            /\ occurrences bob lines = 1%nat
            /\ List.length lines = (List.length (splitlines (str "groceries")) + 2)%nat.
Proof.
  apply (concurrent_add_mail (db_two_users (str "groceries")) 1 2 1
           alice bob (str "groceries")); try reflexivity.
  intros H. discriminate H.
Defined.

(** * Further properties of the code *)

(** ** [add_mail] by what it reads *)

Lemma run_add_mail_write db user_id list_id :
  fst (run (add_mail user_id list_id) db) =
  match add_mail_write user_id list_id db with
  | Some new_list => update_list list_id new_list db
  | None => db
  end.
Proof.
  unfold run, add_mail, add_mail_write.
  destruct (get_email user_id db) as [email|]; [|reflexivity].
  destruct (get_list list_id db) as [text|]; [|reflexivity].
  destruct (contains (splitlines text) email); reflexivity.
Qed.

(** The outcome of [add_mail] is a function of the two rows it reads. *)
Lemma run_add_mail_reads db1 db2 user_id list_id :
  get_email user_id db1 = get_email user_id db2 ->
  get_list list_id db1 = get_list list_id db2 ->
  add_mail_write user_id list_id db1 = add_mail_write user_id list_id db2
  /\ snd (run (add_mail user_id list_id) db1) =
     snd (run (add_mail user_id list_id) db2).
Proof.
  intros Hu Hl. unfold run, add_mail, add_mail_write. rewrite Hu, Hl.
  destruct (get_email user_id db2) as [email|]; [|now split].
  destruct (get_list list_id db2) as [text|]; [|now split].
  destruct (contains (splitlines text) email); now split.
Qed.

Lemma update_by_id_ids id v rows :
  map fst (update_by_id id v rows) = map fst rows.
Proof.
  unfold update_by_id. rewrite map_map. apply map_ext_in.
  intros [i w] _. simpl.
  destruct (i =? id) eqn:E; [apply Z.eqb_eq in E; now subst | reflexivity].
Qed.

Lemma update_by_id_missing id v rows :
  select_by_id id rows = None -> update_by_id id v rows = rows.
Proof.
  induction rows as [|[i w] rows IH]; [reflexivity|].
  simpl. destruct (i =? id); [discriminate|].
  intros H. now rewrite IH.
Qed.

Lemma user_after_add_mail db user_id list_id :
  user (fst (run (add_mail user_id list_id) db)) = user db.
Proof.
  rewrite run_add_mail_write.
  destruct (add_mail_write user_id list_id db);
    [apply user_update_list | reflexivity].
Qed.

Lemma add_mail_write_text db user_id list_id new_list :
  add_mail_write user_id list_id db = Some new_list ->
  exists email text,
    get_email user_id db = Some email /\ get_list list_id db = Some text
    /\ contains (splitlines text) email = false
    /\ new_list = append_line text email.
Proof.
  unfold add_mail_write.
  destruct (get_email user_id db) as [email|]; [|discriminate].
  destruct (get_list list_id db) as [text|]; [|discriminate].
  destruct (contains (splitlines text) email) eqn:Ec; [discriminate|].
  intros [= <-]. now exists email, text.
Qed.

(** X12.  Whatever the text of the list, a press that goes through keeps
    the former entries in place and puts the email last; between them comes
    one empty entry exactly when the text does not end open. *)
Theorem append_line_entries text email :
  single_line email = true ->
  exists pad,
    splitlines (append_line text email) = splitlines text ++ pad ++ [email]
    /\ (pad = [] \/ pad = [[]])
    /\ (pad = [] <-> ends_open text = true).
Proof.
  intros He. exists (if ends_open text then [] else [[]]).
  split; [now apply splitlines_append_line|].
  destruct (ends_open text); split; auto; split; trivial; discriminate.
Qed.

(** X14.  [add_mail] ends by an exception exactly when the user has a
    registered email and [get_list] returns no text; the exception is then
    the one of [get_list], raised before any call to the API: [ValueError]
    for a 64-bit id without a row, [OverflowError] for an id that is no
    64-bit integer.  An unregistered user gets the register-first alert
    also on a list that does not exist. *)
Theorem add_mail_raises_iff db user_id list_id :
  ((exists e calls, snd (run (add_mail user_id list_id) db) = Crashed e calls)
   <-> (get_email user_id db <> None /\ get_list list_id db = None))
  /\ (forall e calls,
        snd (run (add_mail user_id list_id) db) = Crashed e calls ->
        calls = []
        /\ e = (if sqlite_int list_id then ValueError list_id else OverflowError))
  /\ (get_email user_id db = None ->
        run (add_mail user_id list_id) db =
        (db, Finished [AnswerCallback (Some RegisterFirst)])).
Proof.
  unfold run, add_mail, get_list_error.
  destruct (get_email user_id db) as [email|].
  - destruct (get_list list_id db) as [text|].
    + split; [split|split].
      * intros (e & calls & H).
        destruct (contains (splitlines text) email); discriminate H.
      * intros [_ H]. discriminate H.
      * intros e calls H.
        destruct (contains (splitlines text) email); discriminate H.
      * discriminate.
    + split; [split|split].
      * intros _. split; [discriminate | reflexivity].
      * intros _. eexists _, _. reflexivity.
      * intros e calls H. simpl in H. injection H as <- <-. now split.
      * discriminate.
  - split; [split|split].
    + intros (e & calls & H). discriminate H.
    + intros [H _]. congruence.
    + intros e calls H. discriminate H.
    + reflexivity.
Qed.

(** X7.  With a single-line email on file, a second press right after the
    first never changes the database again, whatever the first one did. *)
Theorem add_mail_idempotent db user_id list_id :
  (forall email, get_email user_id db = Some email -> single_line email = true) ->
  let db1 := fst (run (add_mail user_id list_id) db) in
  fst (run (add_mail user_id list_id) db1) = db1.
Proof.
  intros Hs db1. rewrite run_add_mail_write.
  destruct (add_mail_write user_id list_id db1) as [new_list|] eqn:E1;
    [|reflexivity].
  exfalso. apply add_mail_write_text in E1
    as (email & text1 & Hu1 & Hl1 & Hc1 & _).
  assert (Hu : get_email user_id db = Some email).
  { unfold get_email in *. unfold db1 in Hu1.
    now rewrite user_after_add_mail in Hu1. }
  specialize (Hs email Hu).
  unfold db1 in Hl1. rewrite run_add_mail_write in Hl1.
  destruct (add_mail_write user_id list_id db) as [written|] eqn:E0.
  - apply add_mail_write_text in E0 as (email' & text & Hu' & Hl & Hc & ->).
    rewrite Hu in Hu'. injection Hu' as <-.
    rewrite get_list_update_list, Hl in Hl1. injection Hl1 as <-.
    rewrite contains_after_append in Hc1 by assumption. discriminate.
  - unfold add_mail_write in E0. rewrite Hu, Hl1 in E0.
    rewrite Hc1 in E0. discriminate.
Qed.

(** X6.  [update_list] on an id without a row changes nothing; on an id
    with a row, [get_list] then returns the new text; in both cases the
    other lists and the users are as before. *)
Theorem update_list_get_list db list_id new_list :
  (get_list list_id db = None -> update_list list_id new_list db = db)
  /\ (forall text, get_list list_id db = Some text ->
        get_list list_id (update_list list_id new_list db) = Some new_list)
  /\ (forall list_id', list_id' <> list_id ->
        get_list list_id' (update_list list_id new_list db) = get_list list_id' db)
  /\ user (update_list list_id new_list db) = user db.
Proof.
  split; [|split; [|split]].
  - intros H. destruct db as [u l]. unfold update_list, get_list in *.
    simpl in *. destruct (sqlite_int list_id); [|reflexivity].
    f_equal. now apply update_by_id_missing.
  - intros text H. rewrite get_list_update_list. now rewrite H.
  - intros list_id' Hne. now apply get_list_update_list_other.
  - apply user_update_list.
Qed.

Lemma get_list_after_insert id id' title db :
  get_list id db <> None ->
  get_list id (mkDB (user db) (list_ db ++ [(id', title)])) = get_list id db.
Proof.
  intros H. unfold get_list in *. simpl.
  destruct (sqlite_int id); [|congruence].
  rewrite select_by_id_app.
  destruct (select_by_id id (list_ db)); [reflexivity | congruence].
Qed.

(** X5.  [create_list] leaves the [user] table and the text of every
    existing list as they were and adds at most one row, at the end; with
    an empty title it returns at once, without a row and without an answer
    to the inline query. *)
Theorem create_list_frame db title :
  let db' := fst (run (create_list title) db) in
  user db' = user db
  /\ (exists added, list_ db' = list_ db ++ added /\ (List.length added <= 1)%nat)
  /\ (forall list_id text, get_list list_id db = Some text ->
        get_list list_id db' = Some text)
  /\ (title = [] -> run (create_list title) db = (db, Finished [])).
Proof.
  intros db'. unfold db', run, create_list.
  destruct title as [|c title].
  - repeat split; trivial. exists []. rewrite app_nil_r. split; [reflexivity | simpl; lia].
  - unfold insert_list.
    destruct (max_rowid (list_ db) + 1 <=? rowid_limit); simpl.
    + repeat split.
      * eexists. split; [reflexivity | simpl; lia].
      * intros list_id text H. rewrite get_list_after_insert; [exact H | congruence].
      * discriminate.
    + repeat split; trivial; try discriminate.
      exists []. rewrite app_nil_r. split; [reflexivity | simpl; lia].
Qed.

(** X4.  [register_email] with other than one argument replies with the
    usage and with an argument that the validator rejects replies that the
    email is not valid, both without a change; with one valid argument it
    stores the normalised address, which [get_email] then returns, and
    leaves the lists and the other users alone. *)
Theorem register_email_outcomes validate_email db user_id args :
  (List.length args <> 1%nat ->
     run (register_email validate_email user_id args) db =
     (db, Finished [ReplyText RegisterUsage]))
  /\ (forall arg, args = [arg] -> validate_email arg = None ->
        run (register_email validate_email user_id args) db =
        (db, Finished [ReplyText EmailNotValid]))
  /\ (forall arg email, args = [arg] -> validate_email arg = Some email ->
        let db' := insert_user user_id email db in
        run (register_email validate_email user_id args) db =
          (db', Finished [ReplyText EmailRegistered])
        /\ get_email user_id db' = Some email
        /\ list_ db' = list_ db
        /\ forall user_id', user_id' <> user_id ->
             get_email user_id' db' = get_email user_id' db).
Proof.
  split; [|split].
  - intros H. destruct args as [|a [|b args]]; try reflexivity.
    simpl in H. congruence.
  - intros arg -> Hv. unfold run, register_email. now rewrite Hv.
  - intros arg email -> Hv db'. split; [|split; [|split]].
    + unfold run, register_email. now rewrite Hv.
    + apply select_insert_or_replace.
    + reflexivity.
    + intros user_id' Hne. unfold get_email. simpl.
      now apply select_insert_or_replace_other.
Qed.

(** ** What every sequence of events keeps *)

Lemma replay_snoc validate_email evs ev db :
  replay validate_email (evs ++ [ev]) db =
  fst (run (handler validate_email ev) (replay validate_email evs db)).
Proof. unfold replay. now rewrite fold_left_app. Qed.

(** A property that every handler keeps holds after every replay. *)
Lemma replay_invariant validate_email (P : DB -> Prop) :
  (forall ev db, P db -> P (fst (run (handler validate_email ev) db))) ->
  forall evs db, P db -> P (replay validate_email evs db).
Proof.
  intros Hstep. unfold replay.
  induction evs as [|ev evs IH]; intros db Hdb; [exact Hdb|].
  simpl. apply IH. now apply Hstep.
Qed.

Lemma list_after_register validate_email db user_id args :
  list_ (fst (run (register_email validate_email user_id args) db)) = list_ db.
Proof.
  unfold run, register_email.
  destruct args as [|arg [|arg' args]]; try reflexivity.
  destruct (validate_email arg); reflexivity.
Qed.

Lemma user_after_create db title :
  user (fst (run (create_list title) db)) = user db.
Proof.
  unfold run, create_list. destruct title; [reflexivity|].
  unfold insert_list.
  destruct (max_rowid (list_ db) + 1 <=? rowid_limit); reflexivity.
Qed.

Lemma list_after_add_mail_ids db user_id list_id :
  map fst (list_ (fst (run (add_mail user_id list_id) db))) = map fst (list_ db).
Proof.
  rewrite run_add_mail_write.
  destruct (add_mail_write user_id list_id db); [|reflexivity].
  apply list_update_list_ids.
Qed.

Lemma max_rowid_ids rows :
  max_rowid rows = fold_right Z.max 0 (map fst rows).
Proof. induction rows as [|r rows IH]; simpl; [reflexivity | now rewrite IH]. Qed.

Lemma max_of_first_ids n :
  fold_right Z.max 0 (map Z.of_nat (seq 1 n)) = Z.of_nat n.
Proof.
  induction n as [|n IH]; [reflexivity|].
  rewrite seq_S, map_app, fold_right_app. simpl fold_right at 2.
  assert (H : forall l m, 0 <= m ->
            fold_right Z.max m l = Z.max m (fold_right Z.max 0 l)).
  { induction l as [|x l IHl]; intros m Hm; simpl; [lia|].
    rewrite IHl by assumption. lia. }
  rewrite H by lia. rewrite IH. lia.
Qed.

Lemma list_ids_count_up_aux validate_email evs :
  map fst (list_ (replay validate_email evs empty_db)) =
  map Z.of_nat (seq 1 (List.length (list_ (replay validate_email evs empty_db)))).
Proof.
  apply (replay_invariant validate_email
           (fun db => map fst (list_ db) =
                      map Z.of_nat (seq 1 (List.length (list_ db)))));
    [|reflexivity].
  intros ev db Hdb. destruct ev as [user_id args | title | user_id list_id];
    simpl handler.
  - now rewrite list_after_register.
  - unfold run, create_list. destruct title as [|c title]; [exact Hdb|].
    unfold insert_list.
    destruct (max_rowid (list_ db) + 1 <=? rowid_limit); [|exact Hdb].
    simpl. rewrite map_app, length_app, seq_app, map_app. simpl.
    rewrite <- Hdb. f_equal. f_equal.
    rewrite max_rowid_ids, Hdb, max_of_first_ids. lia.
  - pose proof (list_after_add_mail_ids db user_id list_id) as Hids.
    assert (Hlen : List.length (list_ (fst (run (add_mail user_id list_id) db)))
                   = List.length (list_ db)).
    { rewrite <- (length_map fst (list_ (fst (run (add_mail user_id list_id) db)))).
      rewrite Hids. apply length_map. }
    rewrite Hids, Hlen. exact Hdb.
Qed.

(** X1.  In the database reached from the empty one by any events, the ids
    of the lists are 1, 2, ..., n in the order of creation: no id is skipped,
    reused or removed. *)
Theorem list_ids_count_up validate_email evs :
  let db := replay validate_email evs empty_db in
  map fst (list_ db) = map Z.of_nat (seq 1 (List.length (list_ db))).
Proof. apply list_ids_count_up_aux. Qed.

Lemma insert_or_replace_keys id v rows :
  NoDup (map fst rows) -> NoDup (map fst (insert_or_replace id v rows)).
Proof.
  intros H. unfold insert_or_replace. rewrite map_app. simpl.
  apply NoDup_app.
  - induction rows as [|[i w] rows IH]; [constructor|].
    simpl in H. apply NoDup_cons_iff in H as [Hi Hr].
    simpl. destruct (i =? id); simpl; [now apply IH|].
    constructor; [|now apply IH].
    intros Hin. apply Hi. apply in_map_iff in Hin as (r & <- & Hr').
    apply filter_In in Hr' as [Hr' _]. now apply in_map.
  - repeat constructor. intros [].
  - intros x Hx [<- | []].
    apply in_map_iff in Hx as ([i w] & Hi & Hr).
    apply filter_In in Hr as [_ Hr]. simpl in *. subst i.
    now rewrite Z.eqb_refl in Hr.
Qed.

Lemma NoDup_map_of_nat l : NoDup l -> NoDup (map Z.of_nat l).
Proof.
  induction 1 as [|x l Hx Hl IH]; simpl; constructor; [|exact IH].
  intros Hin. apply in_map_iff in Hin as (y & Hy & Hin).
  apply Nat2Z.inj in Hy. now subst.
Qed.

(** X2.  In the database reached from the empty one by any events, no user
    id has two rows in the [user] table and no list id has two rows in the
    [list] table. *)
Theorem primary_keys_unique validate_email evs :
  let db := replay validate_email evs empty_db in
  NoDup (map fst (user db)) /\ NoDup (map fst (list_ db)).
Proof.
  intros db. split.
  - unfold db.
    apply (replay_invariant validate_email (fun d => NoDup (map fst (user d))));
      [|constructor].
    intros ev d Hd. destruct ev as [user_id args | title | user_id list_id];
      simpl handler.
    + unfold run, register_email.
      destruct args as [|arg [|arg' args]]; try exact Hd.
      destruct (validate_email arg); [|exact Hd].
      simpl. now apply insert_or_replace_keys.
    + now rewrite user_after_create.
    + now rewrite user_after_add_mail.
  - generalize (list_ids_count_up_aux validate_email evs). fold db.
    intros ->. apply NoDup_map_of_nat, seq_NoDup.
Qed.




Lemma stored_text_snoc title emails email :
  stored_text title (emails ++ [email]) =
  append_line (stored_text title emails) email.
Proof. unfold stored_text. now rewrite fold_left_app. Qed.

Lemma built_db_step validate_email evs ev db :
  built_db validate_email evs db ->
  built_db validate_email (evs ++ [ev]) (fst (run (handler validate_email ev) db)).
Proof.
  intros [Hu Hl].
  assert (Hu' : forall user_id email, In (user_id, email) (user db) ->
            exists arg, In (Register user_id [arg]) (evs ++ [ev])
                        /\ validate_email arg = Some email).
  { intros i e Hin. destruct (Hu i e Hin) as (arg & Hr & Hv).
    exists arg. split; [apply in_or_app; now left | exact Hv]. }
  assert (Hl' : forall list_id text, In (list_id, text) (list_ db) ->
            exists title emails,
              In (CreateList title) (evs ++ [ev]) /\ title <> []
              /\ text = stored_text title emails
              /\ forall email, In email emails ->
                   exists user_id arg,
                     In (Register user_id [arg]) (evs ++ [ev])
                     /\ In (AddMail user_id list_id) (evs ++ [ev])
                     /\ validate_email arg = Some email).
  { intros i x Hin. destruct (Hl i x Hin) as (title & emails & Hc & Hne & Hx & He).
    exists title, emails. split; [apply in_or_app; now left|].
    split; [exact Hne|]. split; [exact Hx|].
    intros email Hem. destruct (He email Hem) as (u & arg & Hr & Ha & Hv).
    exists u, arg. repeat split; try assumption; apply in_or_app; now left. }
  destruct ev as [user_id args | title | user_id list_id]; simpl handler.
  - unfold run, register_email.
    destruct args as [|arg [|arg' args]]; try now split.
    destruct (validate_email arg) as [email|] eqn:Ev; [|now split].
    simpl. split; [|exact Hl'].
    intros i e Hin. unfold insert_or_replace in Hin.
    apply in_app_or in Hin as [Hin | [Heq | []]].
    + apply filter_In in Hin as [Hin _]. now apply Hu'.
    + injection Heq as <- <-. exists arg.
      split; [apply in_or_app; right; now left | exact Ev].
  - unfold run, create_list. destruct title as [|c title]; [now split|].
    unfold insert_list.
    destruct (max_rowid (list_ db) + 1 <=? rowid_limit); [|now split].
    simpl. split; [exact Hu'|].
    intros i x Hin. apply in_app_or in Hin as [Hin | [Heq | []]].
    + now apply Hl'.
    + injection Heq as <- <-. exists (c :: title), [].
      split; [apply in_or_app; right; now left|].
      split; [discriminate|]. split; [reflexivity|]. intros email [].
  - rewrite run_add_mail_write.
    destruct (add_mail_write user_id list_id db) as [new_list|] eqn:E;
      [|now split].
    apply add_mail_write_text in E as (email & text & He & Ht & _ & ->).
    split; [now rewrite user_update_list|].
    intros i x Hin. apply list_update_list_In in Hin as [Hin | [-> ->]].
    + now apply Hl'.
    + apply get_list_In, Hl' in Ht.
      destruct Ht as (title & emails & Hc & Hne & -> & Hv).
      exists title, (emails ++ [email]). split; [exact Hc|].
      split; [exact Hne|]. split; [now rewrite stored_text_snoc|].
      intros e Hin'. apply in_app_or in Hin' as [Hin' | [<- | []]].
      * now apply Hv.
      * apply select_by_id_In, Hu' in He. destruct He as (arg & Hr & Hva).
        exists user_id, arg. split; [exact Hr|].
        split; [apply in_or_app; right; now left | exact Hva].
Qed.

Lemma built_db_replay validate_email evs :
  built_db validate_email evs (replay validate_email evs empty_db).
Proof.
  induction evs as [|ev evs IH] using rev_ind.
  - split; intros ? ? [].
  - rewrite replay_snoc. now apply built_db_step.
Qed.

(** X15.  In the database reached from the empty one by the events [evs],
    every registered email is an address that the validator returned for
    the argument of a register event of that user, and the text of every
    list is the non-empty title of one of the create-list events followed,
    each after a \n, by addresses that the validator returned to a user who
    registered and who pressed the button of that list.  So without a press
    the text of a list is the title of one of the create-list events. *)
Theorem only_validated_addresses validate_email evs :
  let db := replay validate_email evs empty_db in
  built_db validate_email evs db
  /\ ((forall user_id list_id, ~ In (AddMail user_id list_id) evs) ->
      forall list_id text, In (list_id, text) (list_ db) ->
        In (CreateList text) evs /\ text <> []).
Proof.
  intros db. pose proof (built_db_replay validate_email evs) as Hb.
  split; [exact Hb|].
  intros Hno list_id text Hin. destruct Hb as [_ Hl].
  destruct (Hl list_id text Hin) as (title & emails & Hc & Hne & -> & He).
  destruct emails as [|email emails]; [now split|].
  destruct (He email (or_introl eq_refl)) as (u & arg & _ & Ha & _).
  now apply Hno in Ha.
Qed.

(** ** The button of a list *)

Lemma strip_prefix_app prefix s : strip_prefix prefix (prefix ++ s) = Some s.
Proof.
  induction prefix as [|p prefix IH]; [reflexivity|].
  simpl. now rewrite Z.eqb_refl.
Qed.

Lemma int_of_digits_eval s :
  s <> [] -> forallb is_ascii_digit s = true ->
  int_of_digits s = Some (fold_left (fun a c => 10 * a + (c - 48)) s 0).
Proof.
  intros Hne Hd. unfold int_of_digits. destruct s as [|c0 s0]; [congruence|].
  generalize 0 as a. revert Hd. generalize (c0 :: s0) as l. clear.
  induction l as [|c l IH]; intros Hd a; [reflexivity|].
  simpl in Hd. apply andb_true_iff in Hd as [Hc Hl].
  simpl. rewrite Hc. now apply IH.
Qed.

Lemma digits_S fuel n :
  digits (S fuel) n =
  (if n <? 10 then [] else digits fuel (n / 10)) ++ [48 + n mod 10].
Proof. reflexivity. Qed.

Lemma digits_spec fuel : forall n,
  0 <= n < 10 ^ Z.of_nat (S fuel) ->
  digits (S fuel) n <> []
  /\ forallb is_ascii_digit (digits (S fuel) n) = true
  /\ fold_left (fun a c => 10 * a + (c - 48)) (digits (S fuel) n) 0 = n.
Proof.
  induction fuel as [|fuel IH]; intros n Hn; rewrite digits_S;
    pose proof (Z.mod_pos_bound n 10 ltac:(lia)) as Hm;
    assert (Hlast : is_ascii_digit (48 + n mod 10) = true)
      by (unfold is_ascii_digit; apply andb_true_iff; split; apply Z.leb_le; lia);
    (split; [intros H; apply app_eq_nil in H as [_ H]; discriminate|]);
    rewrite forallb_app, fold_left_app; cbn [forallb fold_left];
    rewrite Hlast, andb_true_r;
    destruct (n <? 10) eqn:Hlt.
  - apply Z.ltb_lt in Hlt. cbn [forallb fold_left].
    rewrite Z.mod_small by lia. split; [reflexivity | lia].
  - apply Z.ltb_ge in Hlt. change (10 ^ Z.of_nat 1) with 10 in Hn. lia.
  - apply Z.ltb_lt in Hlt. cbn [forallb fold_left].
    rewrite Z.mod_small by lia. split; [reflexivity | lia].
  - apply Z.ltb_ge in Hlt.
    assert (Hq : 0 <= n / 10 < 10 ^ Z.of_nat (S fuel)).
    { split; [apply Z.div_pos; lia|].
      apply Z.div_lt_upper_bound; [lia|].
      replace (Z.of_nat (S (S fuel))) with (Z.succ (Z.of_nat (S fuel))) in Hn by lia.
      rewrite Z.pow_succ_r in Hn by lia. lia. }
    destruct (IH (n / 10) Hq) as (_ & Hd & Hv).
    split; [exact Hd|]. rewrite Hv.
    pose proof (Z.div_mod n 10 ltac:(lia)). lia.
Qed.

Lemma digits_fuel_enough n :
  0 <= n -> n < 10 ^ Z.of_nat (S (Z.to_nat (Z.log2 n))).
Proof.
  intros Hn. pose proof (Z.log2_nonneg n) as Hl.
  replace (Z.of_nat (S (Z.to_nat (Z.log2 n)))) with (Z.succ (Z.log2 n)) by lia.
  destruct (Z.eq_dec n 0) as [-> | Hne]; [reflexivity|].
  destruct (Z.log2_spec n ltac:(lia)) as [_ Hlt].
  eapply Z.lt_le_trans; [exact Hlt|].
  apply Z.pow_le_mono_l. lia.
Qed.

(** X13.  The callback data of the button that [get_keyboard] builds for a
    list id that is not negative reads back, on line 166, as that id. *)
Theorem callback_data_round_trip list_id :
  0 <= list_id -> list_id_of_data (callback_data list_id) = Some list_id.
Proof.
  intros Hn. unfold list_id_of_data, callback_data, removeprefix.
  rewrite strip_prefix_app. unfold py_str_int.
  replace (list_id <? 0) with false by (symmetry; apply Z.ltb_ge; lia).
  destruct (digits_spec (Z.to_nat (Z.log2 list_id)) list_id) as (Hne & Hd & Hv).
  { split; [exact Hn | now apply digits_fuel_enough]. }
  rewrite int_of_digits_eval by assumption. now rewrite Hv.
Qed.

(** ** Presses on different lists, and handlers in flight together *)

Lemma update_list_comm list1 list2 text1 text2 db :
  list1 <> list2 ->
  update_list list1 text1 (update_list list2 text2 db) =
  update_list list2 text2 (update_list list1 text1 db).
Proof.
  intros Hne. unfold update_list.
  destruct (sqlite_int list1); destruct (sqlite_int list2); try reflexivity.
  unfold update_by_id. simpl. f_equal.
  rewrite !map_map. apply map_ext. intros [i w]. simpl.
  destruct (i =? list1) eqn:E1; destruct (i =? list2) eqn:E2; simpl;
    rewrite ?E1, ?E2, ?Z.eqb_refl; try reflexivity.
  - apply Z.eqb_eq in E1, E2. congruence.
  - destruct (list1 =? list2) eqn:E; [apply Z.eqb_eq in E; congruence | reflexivity].
  - destruct (list2 =? list1) eqn:E; [apply Z.eqb_eq in E; congruence | reflexivity].
Qed.

Lemma get_list_after_add_mail_other db user_id list_id list_id' :
  list_id' <> list_id ->
  get_list list_id' (fst (run (add_mail user_id list_id) db)) = get_list list_id' db.
Proof.
  intros Hne. rewrite run_add_mail_write.
  destruct (add_mail_write user_id list_id db); [|reflexivity].
  now apply get_list_update_list_other.
Qed.

Lemma get_email_after_add_mail db user_id list_id user_id' :
  get_email user_id' (fst (run (add_mail user_id list_id) db)) =
  get_email user_id' db.
Proof. unfold get_email. now rewrite user_after_add_mail. Qed.

Lemma add_mail_commute db user1 user2 list1 list2 :
  list1 <> list2 ->
  fst (run (add_mail user2 list2) (fst (run (add_mail user1 list1) db))) =
  fst (run (add_mail user1 list1) (fst (run (add_mail user2 list2) db)))
  /\ snd (run (add_mail user1 list1) (fst (run (add_mail user2 list2) db))) =
     snd (run (add_mail user1 list1) db)
  /\ snd (run (add_mail user2 list2) (fst (run (add_mail user1 list1) db))) =
     snd (run (add_mail user2 list2) db).
Proof.
  intros Hne.
  destruct (run_add_mail_reads
              (fst (run (add_mail user2 list2) db)) db user1 list1) as [W1 T1].
  { apply get_email_after_add_mail. }
  { now apply get_list_after_add_mail_other. }
  destruct (run_add_mail_reads
              (fst (run (add_mail user1 list1) db)) db user2 list2) as [W2 T2].
  { apply get_email_after_add_mail. }
  { apply get_list_after_add_mail_other. congruence. }
  split; [|now split].
  rewrite (run_add_mail_write (fst (run (add_mail user1 list1) db))), W2.
  rewrite (run_add_mail_write (fst (run (add_mail user2 list2) db))), W1.
  rewrite !run_add_mail_write.
  destruct (add_mail_write user1 list1 db) as [text1|];
    destruct (add_mail_write user2 list2 db) as [text2|]; try reflexivity.
  symmetry. now apply update_list_comm.
Qed.

(** X9.  Two add-mail presses on different lists do not see each other:
    whatever the order of their turns, each ends as it would alone, and the
    database is the one after both, in either order. *)
Theorem add_mail_on_different_lists db user1 user2 list1 list2 :
  list1 <> list2 ->
  forall db' a b,
    turns (db, Ready (add_mail user1 list1) [], Ready (add_mail user2 list2) [])
          (db', a, b) ->
    over a = true -> over b = true ->
    a = snd (run (add_mail user1 list1) db)
    /\ b = snd (run (add_mail user2 list2) db)
    /\ db' = fst (run (add_mail user2 list2) (fst (run (add_mail user1 list1) db)))
    /\ db' = fst (run (add_mail user1 list1) (fst (run (add_mail user2 list2) db))).
Proof.
  intros Hne db' a b Hts Ha Hb.
  destruct (add_mail_commute db user1 user2 list1 list2 Hne) as (Hdb & T1 & T2).
  apply interleaving_serial in Hts; try assumption;
    try (intros; apply add_mail_quiet).
  destruct Hts as [(-> & -> & ->) | (-> & -> & ->)].
  - repeat split; assumption.
  - repeat split; try assumption. now symmetry.
Qed.

Lemma ends_as_over_final th f : ends_as th f -> over f = true.
Proof. induction 1; trivial. Qed.

Lemma handler_quiet validate_email ev db :
  quiet (snd (handler validate_email ev db)).
Proof.
  destruct ev as [user_id args | title | user_id list_id]; simpl handler.
  - unfold register_email, and_then.
    destruct args as [|arg [|arg' args]];
      try (eapply quiet_Await; [reflexivity | constructor]).
    destruct (validate_email arg);
      eapply quiet_Await; [reflexivity | constructor | reflexivity | constructor].
  - unfold create_list, and_then. destruct title; [constructor|].
    destruct (insert_list _ db) as [[list_id db']|]; [|constructor].
    eapply quiet_Await; [reflexivity | constructor].
  - apply add_mail_quiet.
Qed.

(** X10.  No handler touches the database after its first await.  So two
    handlers in flight together, of any kind, can be run to their ends, and
    whatever the order of their turns the database and the calls of each are
    those of running one of them to its end before the other starts. *)
Theorem handlers_serialize validate_email ev1 ev2 db :
  let h1 := handler validate_email ev1 in
  let h2 := handler validate_email ev2 in
  (forall d, fst (run h1 d) = fst (h1 d) /\ fst (run h2 d) = fst (h2 d))
  /\ (exists db' a b,
        turns (db, Ready h1 [], Ready h2 []) (db', a, b)
        /\ over a = true /\ over b = true)
  /\ forall db' a b,
       turns (db, Ready h1 [], Ready h2 []) (db', a, b) ->
       over a = true -> over b = true ->
       (db' = fst (run h2 (fst (run h1 db)))
        /\ a = snd (run h1 db) /\ b = snd (run h2 (fst (run h1 db))))
       \/ (db' = fst (run h1 (fst (run h2 db)))
           /\ a = snd (run h1 (fst (run h2 db))) /\ b = snd (run h2 db)).
Proof.
  intros h1 h2.
  assert (Q1 : forall d, quiet (snd (h1 d))) by (intros; apply handler_quiet).
  assert (Q2 : forall d, quiet (snd (h2 d))) by (intros; apply handler_quiet).
  split; [|split].
  - intros d. split; now apply run_quiet.
  - eexists _, _, _. split; [now apply serial_turns|].
    destruct (run_quiet h1 db Q1) as [_ E1].
    destruct (run_quiet h2 (fst (run h1 db)) Q2) as [_ E2].
    split; eapply ends_as_over_final; eassumption.
  - intros db' a b Hts Ha Hb. now apply interleaving_serial.
Qed.

(** ** Several presses in a row *)

Lemma presses_from_tidy validate_email list_id presses : forall db text lines,
  get_list list_id db = Some text ->
  text = join_lines lines -> lines <> [] -> forallb single_line lines = true ->
  (forall user_id email, In (user_id, email) presses ->
     get_email user_id db = Some email) ->
  forallb single_line (map snd presses) = true ->
  NoDup (lines ++ map snd presses) ->
  get_list list_id
    (replay validate_email (map (fun p => AddMail (fst p) list_id) presses) db)
  = Some (fold_left append_line (map snd presses) text)
  /\ splitlines (fold_left append_line (map snd presses) text)
     = lines ++ map snd presses.
Proof.
  induction presses as [|[u e] presses IH];
    intros db text lines Hl Ht Hne Hs Hu Hp Hnd.
  - simpl. rewrite app_nil_r. split; [exact Hl|].
    now apply tidy_text_lines.
  - simpl in Hp. apply andb_true_iff in Hp as [He Hp].
    assert (Hc : contains (splitlines text) e = false).
    { rewrite (tidy_text_lines text lines Hs Ht). apply contains_not_In.
      simpl in Hnd. apply NoDup_remove_2 in Hnd.
      intros Hin. apply Hnd. apply in_or_app. now left. }
    assert (Hue : get_email u db = Some e) by (apply Hu; now left).
    change (replay validate_email
              (map (fun p => AddMail (fst p) list_id) ((u, e) :: presses)) db)
      with (replay validate_email
              (map (fun p => AddMail (fst p) list_id) presses)
              (fst (run (add_mail u list_id) db))).
    rewrite (add_mail_absent _ _ _ _ _ Hue Hl Hc). cbn [fst].
    cbn [map snd fold_left].
    replace (lines ++ e :: map snd presses)
      with ((lines ++ [e]) ++ map snd presses) by now rewrite <- app_assoc.
    apply IH.
    + rewrite get_list_update_list. now rewrite Hl.
    + rewrite join_lines_snoc by assumption. now rewrite Ht.
    + destruct lines; discriminate.
    + rewrite forallb_app, Hs. simpl. now rewrite He.
    + intros user_id email Hin. rewrite get_email_update_list.
      apply Hu. now right.
    + exact Hp.
    + rewrite <- app_assoc. exact Hnd.
Qed.

(** X11.  On a list whose text is its single-line title, presses of users
    whose registered emails are single lines, distinct from each other and
    from the title, all go through, and the entries are then the title and
    the emails in the order of the presses. *)
Theorem presses_in_order validate_email db list_id title presses :
  get_list list_id db = Some title -> single_line title = true ->
  (forall user_id email, In (user_id, email) presses ->
     get_email user_id db = Some email) ->
  forallb single_line (map snd presses) = true ->
  NoDup (title :: map snd presses) ->
  let db' := replay validate_email
               (map (fun p => AddMail (fst p) list_id) presses) db in
  get_list list_id db' = Some (stored_text title (map snd presses))
  /\ entries list_id db' = Some (title :: map snd presses).
Proof.
  intros Hl Ht Hu Hp Hnd db'.
  destruct (presses_from_tidy validate_email list_id presses db title [title])
    as [Hg Hs]; try assumption; try reflexivity.
  - discriminate.
  - simpl. now rewrite Ht.
  - split; [exact Hg|]. unfold entries, db'. rewrite Hg. simpl. f_equal. exact Hs.
Qed.

(** X8.  An entry is a copy of the email at the time of the press.  For
    a registered single-line email that is not among the entries of the
    list, and another single-line email that is not among them either:
    after the press, which goes through, registering the other email leaves
    the entries of the list as they are, and pressing again puts the other
    email after them; the first email stays. *)
Theorem reregister_then_press db user_id list_id email1 email2 text :
  get_email user_id db = Some email1 ->
  single_line email1 = true -> single_line email2 = true -> email1 <> email2 ->
  get_list list_id db = Some text ->
  contains (splitlines text) email1 = false ->
  contains (splitlines text) email2 = false ->
  let db1 := fst (run (add_mail user_id list_id) db) in
  let db2 := insert_user user_id email2 db1 in
  let db3 := fst (run (add_mail user_id list_id) db2) in
  exists lines1,
    entries list_id db1 = Some lines1
    /\ In email1 lines1
    /\ entries list_id db2 = Some lines1
    /\ entries list_id db3 = Some (lines1 ++ [email2])
    /\ get_email user_id db3 = Some email2.
Proof.
  intros Hu Hs1 Hs2 Hne Hl Hc1 Hc2 db1 db2 db3.
  set (text1 := append_line text email1).
  assert (Hdb1 : db1 = update_list list_id text1 db).
  { unfold db1. now rewrite (add_mail_absent _ _ _ _ _ Hu Hl Hc1). }
  assert (Hl1 : get_list list_id db1 = Some text1).
  { rewrite Hdb1, get_list_update_list. now rewrite Hl. }
  assert (Hlines1 : splitlines text1 =
            splitlines text ++ (if ends_open text then [] else [[]]) ++ [email1]).
  { unfold text1. now apply splitlines_append_line. }
  assert (Hl2 : get_list list_id db2 = Some text1) by exact Hl1.
  assert (Hu2 : get_email user_id db2 = Some email2).
  { unfold db2, get_email. simpl. apply select_insert_or_replace. }
  assert (Hc2' : contains (splitlines text1) email2 = false).
  { rewrite Hlines1, !contains_app, Hc2.
    destruct (ends_open text); unfold contains; simpl;
      rewrite (str_eqb_neq email2 email1) by congruence; [reflexivity|].
    destruct email2; [discriminate | reflexivity]. }
  assert (Hdb3 : db3 = update_list list_id (append_line text1 email2) db2).
  { unfold db3. now rewrite (add_mail_absent _ _ _ _ _ Hu2 Hl2 Hc2'). }
  exists (splitlines text1). split; [|split; [|split; [|split]]].
  - unfold entries. now rewrite Hl1.
  - rewrite Hlines1. apply in_or_app. right. apply in_or_app. right. now left.
  - unfold entries. now rewrite Hl2.
  - unfold entries. rewrite Hdb3, get_list_update_list, Hl2. simpl. f_equal.
    rewrite splitlines_append_line by assumption.
    replace (ends_open text1) with true
      by (symmetry; now apply ends_open_append_line).
    reflexivity.
  - rewrite Hdb3, get_email_update_list. exact Hu2.
Qed.

(** ** The further properties at concrete inputs *)

Lemma append_line_entries_witness :
  exists pad,
    splitlines (append_line (str "t" ++ [LF]) alice) =
      splitlines (str "t" ++ [LF]) ++ pad ++ [alice]
    /\ (pad = [] \/ pad = [[]])
    /\ (pad = [] <-> ends_open (str "t" ++ [LF]) = true).
Proof. apply (append_line_entries (str "t" ++ [LF]) alice). reflexivity. Defined.

Lemma add_mail_idempotent_witness :
  let db1 := fst (run (add_mail 1 1) db_groceries) in
  fst (run (add_mail 1 1) db1) = db1.
Proof.
  apply (add_mail_idempotent db_groceries 1 1).
  intros email H. vm_compute in H. injection H as <-. reflexivity.
Defined.


Lemma callback_data_round_trip_witness :
  list_id_of_data (callback_data 999999) = Some 999999.
Proof. apply (callback_data_round_trip 999999). lia. Defined.

Lemma add_mail_on_different_lists_witness :
  1 <> 2 /\
  forall db' a b,
    turns (db_two_lists, Ready (add_mail 1 1) [], Ready (add_mail 2 2) [])
          (db', a, b) ->
    over a = true -> over b = true ->
    a = snd (run (add_mail 1 1) db_two_lists)
    /\ b = snd (run (add_mail 2 2) db_two_lists)
    /\ db' = fst (run (add_mail 2 2) (fst (run (add_mail 1 1) db_two_lists)))
    /\ db' = fst (run (add_mail 1 1) (fst (run (add_mail 2 2) db_two_lists))).
Proof.
  split; [lia|]. apply (add_mail_on_different_lists db_two_lists 1 2 1 2). lia.
Defined.

Lemma presses_in_order_witness :
  let db' := replay accept_at [AddMail 2 1; AddMail 1 1]
               (db_two_users (str "groceries")) in
  get_list 1 db' = Some (stored_text (str "groceries") [bob; alice])
  /\ entries 1 db' = Some [str "groceries"; bob; alice].
Proof.
  apply (presses_in_order accept_at (db_two_users (str "groceries")) 1
           (str "groceries") [(2, bob); (1, alice)]); try reflexivity.
  - intros user_id email [H | [H | []]]; injection H as <- <-; reflexivity.
  - repeat constructor; simpl; intuition discriminate.
Defined.

Lemma reregister_then_press_witness :
  let db1 := fst (run (add_mail 1 1) db_groceries) in
  let db2 := insert_user 1 bob db1 in
  let db3 := fst (run (add_mail 1 1) db2) in
  exists lines1,
    entries 1 db1 = Some lines1
    /\ In alice lines1
    /\ entries 1 db2 = Some lines1
    /\ entries 1 db3 = Some (lines1 ++ [bob])
    /\ get_email 1 db3 = Some bob.
Proof.
  apply (reregister_then_press db_groceries 1 1 alice bob (str "groceries"));
    try reflexivity.
  intros H. discriminate H.
Defined.

(** ** Two lists created together *)

Lemma create_list_twice db title1 title2 :
  title1 <> [] -> title2 <> [] ->
  max_rowid (list_ db) + 1 < rowid_limit ->
  let id1 := max_rowid (list_ db) + 1 in
  let id2 := max_rowid (list_ db) + 2 in
  let db2 := fst (run (create_list title2) (fst (run (create_list title1) db))) in
  snd (run (create_list title1) db) = Finished [AnswerInlineQuery title1 id1]
  /\ snd (run (create_list title2) (fst (run (create_list title1) db))) =
     Finished [AnswerInlineQuery title2 id2]
  /\ get_list id1 db2 = Some title1
  /\ get_list id2 db2 = Some title2.
Proof.
  intros H1 H2 Hm id1 id2 db2.
  pose proof (max_rowid_nonneg (list_ db)) as Hpos.
  assert (R1 := create_list_next db title1 H1 ltac:(lia)).
  fold id1 in R1.
  remember (mkDB (user db) (list_ db ++ [(id1, title1)])) as db1 eqn:Edb1.
  assert (Hmax1 : max_rowid (list_ db1) = id1).
  { rewrite Edb1. simpl. rewrite max_rowid_app. simpl. unfold id1. lia. }
  assert (R2 := create_list_next db1 title2 H2 ltac:(unfold id1 in Hmax1; lia)).
  rewrite Hmax1 in R2.
  replace (id1 + 1) with id2 in R2 by (unfold id1, id2; lia).
  unfold db2. rewrite R1. cbn [fst snd]. rewrite R2. cbn [fst snd].
  assert (Hint1 : sqlite_int id1 = true)
    by (apply rowid_sqlite_int; unfold rowid_limit in *; lia).
  assert (Hint2 : sqlite_int id2 = true).
  { replace id2 with (max_rowid (list_ db1) + 1) by (rewrite Hmax1; unfold id1, id2; lia).
    apply rowid_sqlite_int. rewrite Hmax1. unfold id1. lia. }
  repeat split.
  - rewrite get_list_select by exact Hint1.
    rewrite Edb1. simpl. rewrite !select_by_id_app.
    rewrite select_by_id_above by (unfold id1; lia).
    simpl. now rewrite Z.eqb_refl.
  - rewrite get_list_select by exact Hint2.
    rewrite Edb1. simpl. rewrite !select_by_id_app.
    rewrite select_by_id_above by (unfold id2; lia).
    simpl.
    destruct (id1 =? id2) eqn:E; [apply Z.eqb_eq in E; unfold id1, id2 in E; lia|].
    now rewrite Z.eqb_refl.
Qed.

(** X16.  Two [create_list] calls in flight together, with non-empty titles
    and two ids left below the limit, get the two next ids, one each:
    whatever the order of their turns the two answers carry different ids
    and each id then leads to the title of its own call. *)
Theorem concurrent_create_list db title1 title2 :
  title1 <> [] -> title2 <> [] ->
  max_rowid (list_ db) + 1 < rowid_limit ->
  forall db' a b,
    turns (db, Ready (create_list title1) [], Ready (create_list title2) [])
          (db', a, b) ->
    over a = true -> over b = true ->
    exists id1 id2,
      a = Finished [AnswerInlineQuery title1 id1]
      /\ b = Finished [AnswerInlineQuery title2 id2]
      /\ id1 <> id2
      /\ max_rowid (list_ db) < id1 /\ max_rowid (list_ db) < id2
      /\ get_list id1 db' = Some title1
      /\ get_list id2 db' = Some title2.
Proof.
  intros H1 H2 Hm db' a b Hts Ha Hb.
  apply interleaving_serial in Hts; try assumption;
    try (intros d; apply (handler_quiet (fun _ => None) (CreateList _) d)).
  destruct Hts as [(-> & -> & ->) | (-> & -> & ->)].
  - destruct (create_list_twice db title1 title2 H1 H2 Hm) as (A & B & G1 & G2).
    exists (max_rowid (list_ db) + 1), (max_rowid (list_ db) + 2).
    repeat split; try assumption; lia.
  - destruct (create_list_twice db title2 title1 H2 H1 Hm) as (A & B & G1 & G2).
    exists (max_rowid (list_ db) + 2), (max_rowid (list_ db) + 1).
    repeat split; try assumption; lia.
Qed.

Lemma concurrent_create_list_witness :
  max_rowid (list_ db_groceries) + 1 < rowid_limit /\
  forall db' a b,
    turns (db_groceries, Ready (create_list (str "tea")) [],
           Ready (create_list (str "milk")) [])
          (db', a, b) ->
    over a = true -> over b = true ->
    exists id1 id2,
      a = Finished [AnswerInlineQuery (str "tea") id1]
      /\ b = Finished [AnswerInlineQuery (str "milk") id2]
      /\ id1 <> id2
      /\ max_rowid (list_ db_groceries) < id1 /\ max_rowid (list_ db_groceries) < id2
      /\ get_list id1 db' = Some (str "tea")
      /\ get_list id2 db' = Some (str "milk").
Proof.
  split; [reflexivity|].
  apply (concurrent_create_list db_groceries (str "tea") (str "milk"));
    try discriminate.
  reflexivity.
Defined.
